(** * IDA-CFP: string/function extraction and uniqueness adjudication

    A shallow embedding of the Python sources under [pkg/]:
    - [astparser/astparser.py]   ([AstParser], [ConstantVisitor], [FuncDefVisitor])
    - [build/lib/record/record.py]       ([Record])
    - [build/lib/verifier/verifier.py]   ([Verifier])
    - [build/lib/interface/interface.py] ([Interface])
    - [build/lib/core/core.py]           ([Core])

    Python [str] values are byte strings (UTF-8), Python lists are Rocq
    lists, the [Record.str_func_dict] dictionary is a [gmap string string],
    and the list object shared between [ConstantVisitor.values] and the
    local variable [function_strings] lives in an explicit store of list
    objects addressed by location.  Exceptions are a sum type threaded
    through a state-and-error monad.  Calls to [LOGGER] leave no trace in
    the state and are left out; the tree producer, [os.path.getsize] and
    [sys.getsizeof] are parameters. *)

From Stdlib Require Import ZArith Ascii String Sorted.
From stdpp Require Import gmap strings.

Local Open Scope Z_scope.

(* ================================================================== *)
(** * Python built-ins on [str] *)
(* ================================================================== *)

Module PyStr.

(** The characters the sources name in literals. *)
Definition dquote : ascii := "034"%char.
Definition backslash : ascii := "092"%char.
Definition underscore : ascii := "095"%char.

Definition code (c : ascii) : Z := Z.of_N (N_of_ascii c).

(** [str.replace(old, new)] for a non-empty [old]: scan left to right;
    where [old] starts, emit [new] and skip the rest of that occurrence
    ([skip] counts the characters of it still to drop), so occurrences
    never overlap. *)
Fixpoint replace_from (old new : string) (skip : nat) (s : string) : string :=
  match s with
  | EmptyString => EmptyString
  | String c s' =>
      match skip with
      | S k => replace_from old new k s'
      | O =>
          if String.prefix old s
          then new +:+ replace_from old new (Nat.pred (String.length old)) s'
          else String c (replace_from old new O s')
      end
  end.

(** [str.replace("", new)] puts [new] before every character and at
    the end. *)
Fixpoint intersperse (new s : string) : string :=
  match s with
  | EmptyString => new
  | String c s' => new +:+ String c (intersperse new s')
  end.

Definition replace (old new s : string) : string :=
  match old with
  | EmptyString => intersperse new s
  | String _ _ => replace_from old new O s
  end.

(** [c in s] for a character [c]. *)
Fixpoint contains (c : ascii) (s : string) : bool :=
  match s with
  | EmptyString => false
  | String c' s' => Ascii.eqb c' c || contains c s'
  end.

(** [bool(s)] / [not s] on a string. *)
Definition truthy (s : string) : bool :=
  match s with EmptyString => false | String _ _ => true end.

(** ASCII white space as [int()] skips it: TAB, LF, VT, FF, CR and
    SPACE. *)
Definition isspace (c : ascii) : bool :=
  let n := code c in
  ((9 <=? n) && (n <=? 13)) || (n =? 32).

Definition digit_val (c : ascii) : option Z :=
  let n := code c in
  if (48 <=? n) && (n <=? 57) then Some (n - 48) else None.

Fixpoint lstrip (s : string) : string :=
  match s with
  | EmptyString => EmptyString
  | String c s' => if isspace c then lstrip s' else s
  end.

Fixpoint all_space (s : string) : bool :=
  match s with
  | EmptyString => true
  | String c s' => isspace c && all_space s'
  end.

(** The digits of a base-10 [int()] argument: one or more digits, single
    underscores allowed between digits only.  [after_digit] says whether
    the previous character was a digit.  Returns the value and the
    unread rest. *)
Fixpoint digits (acc : Z) (after_digit : bool) (s : string) : option (Z * string) :=
  match s with
  | EmptyString => if after_digit then Some (acc, EmptyString) else None
  | String c s' =>
      match digit_val c with
      | Some d => digits (10 * acc + d) true s'
      | None =>
          if Ascii.eqb c underscore
          then (if after_digit then digits acc false s' else None)
          else (if after_digit then Some (acc, s) else None)
      end
  end.

(** [int(s)] for a [str] argument, base 10, as in Python 3.7: optional
    surrounding white space, an optional sign, then [digits]; [None]
    stands for [ValueError].  Text is ASCII here, as the C lexer yields
    it for numeric constants: Unicode decimal digits and spaces outside
    ASCII are not recognised. *)
Definition int (s : string) : option Z :=
  let s1 := lstrip s in
  let '(sign, s2) :=
    match s1 with
    | String "+" r => (1, r)
    | String "-" r => (-1, r)
    | _ => (1, s1)
    end in
  match digits 0 false s2 with
  | Some (v, rest) => if all_space rest then Some (sign * v) else None
  | None => None
  end.

End PyStr.

(** The three string literals of the sources' [replace] calls. *)
Abbreviation dq := (String PyStr.dquote EmptyString).
Abbreviation bs1 := (String PyStr.backslash EmptyString).
Abbreviation bs2 := (String PyStr.backslash (String PyStr.backslash EmptyString)).

(* ================================================================== *)
(** * exception/exception.py *)
(* ================================================================== *)

(** The exceptions that can leave the modelled functions.  The first four
    are classes of [exception.py]; [AttributeError] is Python's own;
    [TreeProducerError] stands for anything the external preprocessor and
    parser raise, and [OSError] for what [os.path.getsize] raises on a
    path it cannot stat. *)
Inductive error :=
| NoFilesSpecifiedError
| NoneFilePathError
| AstEmptyError
| NoFunctionsFoundError
| AttributeError
| TreeProducerError
| OSError.

(** [check_parsable] runs on the command-line files before anything else
    and raises one of two exceptions of its own. *)
Inductive parsable_error :=
| FilePermissionsError
| FileLocationError.

(* ================================================================== *)
(** * pycparser's [c_ast] *)
(* ================================================================== *)

(** A syntax tree as the visitors see it: [Constant] leaves carrying their
    source text, [FuncDef] nodes carrying [decl.name], and every other
    node class, of which only the children matter. *)
#[warnings="-register-all"]
Inductive node :=
| Constant (type value : string)
| FuncDef (decl_name : string) (children : list node)
| Node (class_name : string) (children : list node).

(** [function_node.decl.name]: only a [FuncDef] has a [decl]. *)
Definition decl_name_of (n : node) : option string :=
  match n with
  | FuncDef name _ => Some name
  | _ => None
  end.

(** An [argparse] file object, as far as the sources read it. *)
Record file_io := FileIO { name : string; mode : string }.

(** The external collaborators: the tree producer behind
    [pycparser.parse_file] ([None] when it raises), [sys.getsizeof], and
    [os.path.getsize] ([None] when it raises). *)
Record env := Env {
  parse_file : string → option node;
  getsizeof : node → Z;
  path_getsize : string → option Z
}.

(* ================================================================== *)
(** * Program state and the state-and-exception monad *)
(* ================================================================== *)

(** Python list objects are shared by reference: a location names one. *)
Abbreviation loc := nat.

Record state := State {
  tpl_list : list (string * string);       (* Record.tpl_list: (function, string) *)
  str_func_dict : gmap string string;      (* Record.str_func_dict: string -> function *)
  lists : list (list string);              (* the store of list-of-str objects *)
  const_visitor_values : loc;              (* self.const_visitor.values *)
  func_visitor_nodes : list node;          (* self.func_visitor.nodes *)
  requested : list string;                 (* paths handed to the tree producer so far *)
  json_data : option string                (* self._intr.json_data; None until set *)
}.

Definition set_tpl_list (v : list (string * string)) (s : state) : state :=
  State v (str_func_dict s) (lists s) (const_visitor_values s)
        (func_visitor_nodes s) (requested s) (json_data s).
Definition set_str_func_dict (v : gmap string string) (s : state) : state :=
  State (tpl_list s) v (lists s) (const_visitor_values s)
        (func_visitor_nodes s) (requested s) (json_data s).
Definition set_lists (v : list (list string)) (s : state) : state :=
  State (tpl_list s) (str_func_dict s) v (const_visitor_values s)
        (func_visitor_nodes s) (requested s) (json_data s).
Definition set_const_visitor_values (v : loc) (s : state) : state :=
  State (tpl_list s) (str_func_dict s) (lists s) v
        (func_visitor_nodes s) (requested s) (json_data s).
Definition set_func_visitor_nodes (v : list node) (s : state) : state :=
  State (tpl_list s) (str_func_dict s) (lists s) (const_visitor_values s)
        v (requested s) (json_data s).
Definition set_requested (v : list string) (s : state) : state :=
  State (tpl_list s) (str_func_dict s) (lists s) (const_visitor_values s)
        (func_visitor_nodes s) v (json_data s).
Definition set_json_data (v : option string) (s : state) : state :=
  State (tpl_list s) (str_func_dict s) (lists s) (const_visitor_values s)
        (func_visitor_nodes s) (requested s) v.

(** A computation returns the state it leaves behind together with either
    the exception raised or its value. *)
Definition M (A : Type) : Type := state → state * (error + A).

#[global] Instance M_ret : MRet M := λ A x s, (s, inr x).
#[global] Instance M_bind : MBind M := λ A B f m s,
  match m s with
  | (s', inl e) => (s', inl e)
  | (s', inr x) => f x s'
  end.

Definition raise {A} (e : error) : M A := λ s, (s, inl e).
Definition gets {A} (f : state → A) : M A := λ s, (s, inr (f s)).
Definition modify (f : state → state) : M unit := λ s, (f s, inr tt).

(** [for x in l: body(x)] *)
Definition for_each {A} (body : A → M unit) : list A → M unit :=
  fix go l :=
    match l with
    | [] => mret tt
    | x :: l' => body x ;; go l'
    end.

(** Operations on list objects in the store. *)
Definition list_new (l : list string) : M loc := λ s,
  (set_lists (lists s ++ [l]) s, inr (length (lists s))).
Definition list_read (r : loc) : M (list string) :=
  gets (λ s, default [] (lists s !! r)).
Definition list_append (r : loc) (x : string) : M unit :=
  modify (λ s, set_lists (alter (λ l, l ++ [x]) r (lists s)) s).
Definition list_clear (r : loc) : M unit :=
  modify (λ s, set_lists (alter (λ _, []) r (lists s)) s).

(* ================================================================== *)
(** * build/lib/verifier/verifier.py *)
(* ================================================================== *)

Module Verifier.

(** [check_num_ast_functions]: counts the nodes (reading each one's
    [decl.name] for the log) and raises when there is none. *)
Definition check_num_ast_functions (nodes : list node) : M unit :=
  for_each (λ n,
    match decl_name_of n with
    | Some _ => mret tt
    | None => raise AttributeError
    end) nodes ;;
  if bool_decide (length nodes = 0%nat)
  then raise NoFunctionsFoundError
  else mret tt.

(** [check_num_dict_functions]: [bool(tmp_dict.values())]. *)
Definition check_num_dict_functions (tmp_dict : gmap string string) : bool :=
  negb (bool_decide (size tmp_dict = 0%nat)).

(** [check_list_dict_conversion]: raises and catches its own error on an
    empty list; only a warning is left. *)
Definition check_list_dict_conversion (tmp_list : list (string * string)) : M unit :=
  mret tt.

(** [check_parsable]: the first file that is not opened for reading, or
    else has no name, stops the check; the mode is tested before the
    name. *)
Fixpoint check_parsable (files : list file_io) : parsable_error + unit :=
  match files with
  | [] => inr tt
  | file_io :: rest =>
      if negb (String.eqb (mode file_io) "r") then inl FilePermissionsError
      else if negb (PyStr.truthy (name file_io)) then inl FileLocationError
      else check_parsable rest
  end.

(** [check_dict_by_list]: the dictionary is given by [keys], its keys in
    iteration order.  For every key and every pair, the pair's string is
    appended to [to_remove] when it equals the key and is not yet in
    [to_remove]. *)
Definition check_dict_by_list (tmp_list : list (string * string))
    (keys : list string) : list string :=
  foldl (λ to_remove key,
    foldl (λ to_remove pair,
      if decide (key = pair.2 ∧ key ∉ to_remove)
      then to_remove ++ [pair.2] else to_remove) to_remove tmp_list)
    [] keys.

End Verifier.

(* ================================================================== *)
(** * build/lib/record/record.py *)
(* ================================================================== *)

Module Record.

(** [strings.count(string)] *)
Definition count (x : string) (l : list string) : nat :=
  length (filter (λ y, y = x) l).

(** [list.sort(key=operator.itemgetter(0))]: a stable ascending sort on
    the function name; names compare like Python [str], character by
    character.  Stable insertion: an element goes before the first one
    of the sorted rest that is not smaller than it, and the rest came
    after it in the input. *)
Fixpoint insert_by_func (x : string * string) (l : list (string * string))
  : list (string * string) :=
  match l with
  | [] => [x]
  | y :: l' =>
      if String.leb x.1 y.1 then x :: y :: l' else y :: insert_by_func x l'
  end.

Definition sort_by_func (l : list (string * string)) : list (string * string) :=
  foldr insert_by_func [] l.

(** [dict(pairs)]: later pairs override earlier ones with the same key. *)
Definition dict (pairs : list (string * string)) : gmap string string :=
  foldl (λ m kv, <[kv.1 := kv.2]> m) ∅ pairs.

(** [d.update(other)]: every key of [other] takes [other]'s value, the
    remaining keys of [d] stay. *)
Definition update (d other : gmap string string) : gmap string string :=
  other ∪ d.

(** The three loops of [remove_non_unique_from_list] on the list value. *)
Definition strings_of (tpl : list (string * string)) : list string :=
  snd <$> tpl.

Definition to_remove_of (strings : list string) : list string :=
  filter (λ string, (1 < count string strings)%nat) strings.

Definition remove_all (to_remove : list string) (tpl : list (string * string))
  : list (string * string) :=
  foldl (λ acc removal, filter (λ i, i.2 ≠ removal) acc) tpl to_remove.

Definition remove_non_unique_from_list : M unit :=
  tpl ← gets tpl_list;
  let strings := strings_of tpl in
  let to_remove := to_remove_of strings in
  modify (set_tpl_list (remove_all to_remove tpl)).

Definition sort_tmp_list : M unit :=
  tpl ← gets tpl_list;
  modify (set_tpl_list (sort_by_func tpl)).

Definition add_unique_to_dict : M unit :=
  tpl ← gets tpl_list;
  let reverse := (λ t, (t.2, t.1)) <$> tpl in
  Verifier.check_list_dict_conversion reverse ;;
  d ← gets str_func_dict;
  modify (set_str_func_dict (update d (dict reverse))) ;;
  d' ← gets str_func_dict;
  (* NoUniqueStringsError is raised and caught on the spot *)
  if Verifier.check_num_dict_functions d' then mret tt else mret tt.

Definition integrate_list_to_dict : M unit :=
  remove_non_unique_from_list ;;
  sort_tmp_list ;;
  add_unique_to_dict.

Definition add_func_str_to_list (new_func new_string : string) : M unit :=
  tpl ← gets tpl_list;
  modify (set_tpl_list (tpl ++ [(new_func, new_string)])).

End Record.

(* ================================================================== *)
(** * astparser/astparser.py *)
(* ================================================================== *)

Module ConstantVisitor.

(** [__init__]: [self.values = []], a new list object. *)
Definition __init__ : M loc := list_new [].

(** [node.value.replace] of the double quote by nothing. *)
Definition strip (value : string) : string :=
  PyStr.replace dq EmptyString value.

(** [visit_Constant]: the text is dropped when [int] accepts it;
    otherwise every double quote is taken out and what is left is
    appended to [self.values] unless it is empty. *)
Definition visit_Constant (values : loc) (value : string) : M unit :=
  match PyStr.int value with
  | Some _ => mret tt
  | None =>
      let stripped := strip value in
      if PyStr.truthy stripped then list_append values stripped else mret tt
  end.

(** [NodeVisitor.visit]: [visit_Constant] on a [Constant], and
    [generic_visit] -- visit the children in order -- on everything
    else, function definitions included. *)
Fixpoint visit (values : loc) (n : node) : M unit :=
  match n with
  | Constant _ value => visit_Constant values value
  | FuncDef _ children => for_each (visit values) children
  | Node _ children => for_each (visit values) children
  end.

End ConstantVisitor.

Module FuncDefVisitor.

(** [visit_FuncDef]: [self.nodes.append(node)], without visiting the
    node's children. *)
Definition visit_FuncDef (n : node) : M unit :=
  nodes ← gets func_visitor_nodes;
  modify (set_func_visitor_nodes (nodes ++ [n])).

Fixpoint visit (n : node) : M unit :=
  match n with
  | FuncDef _ _ => visit_FuncDef n
  | Constant _ _ => mret tt
  | Node _ children => for_each visit children
  end.

End FuncDefVisitor.

Module AstParser.

Definition MIN_BYTES : Z := 10.

(** [__init__]: fresh [ConstantVisitor] and [FuncDefVisitor] objects. *)
Definition __init__ : M unit :=
  values ← ConstantVisitor.__init__;
  modify (set_const_visitor_values values) ;;
  modify (set_func_visitor_nodes []).

Definition locate_functions (ast : node) : M (list node) :=
  FuncDefVisitor.visit ast ;;
  nodes ← gets func_visitor_nodes;
  Verifier.check_num_ast_functions nodes ;;
  mret nodes.

(** Returns [self.const_visitor.values] itself: the caller holds the
    visitor's own list object, not a copy. *)
Definition locate_func_strings (n : node) : M loc :=
  values ← gets const_visitor_values;
  ConstantVisitor.visit values n ;;
  gets const_visitor_values.

(** The [for function_node in function_list] loop; the local variable
    [function_strings] is rebound in every round and carried into the
    next. *)
Fixpoint function_loop (function_list : list node) (function_strings : loc) : M unit :=
  match function_list with
  | [] => mret tt
  | function_node :: rest =>
      list_clear function_strings ;;
      function_strings ← locate_func_strings function_node;
      strs ← list_read function_strings;
      for_each (λ function_str,
        match decl_name_of function_node with
        | Some fname => Record.add_func_str_to_list fname function_str
        | None => raise AttributeError
        end) strs ;;
      function_loop rest function_strings
  end.

Definition build_function_str_pairs (ast : node) : M unit :=
  function_list ← locate_functions ast;
  function_strings ← list_new [];
  function_loop function_list function_strings ;;
  Record.sort_tmp_list ;;
  __init__.

Definition process_ast (e : env) (ast : node) : M unit :=
  (if getsizeof e ast <? MIN_BYTES then raise AstEmptyError else mret tt) ;;
  build_function_str_pairs ast.

End AstParser.

(* ================================================================== *)
(** * Python's [json.dumps] on a dictionary of strings *)
(* ================================================================== *)

Module PyJson.

Definition newline : ascii := "010"%char.

(** One lower-case hexadecimal digit. *)
Definition hex_digit (d : N) : ascii :=
  ascii_of_N (if (d <? 10)%N then 48 + d else 87 + d).

(** Backslash, u and the four hexadecimal digits of a number below
    65536. *)
Definition u_escape (n : N) : string :=
  String PyStr.backslash (String "u"
    (String (hex_digit (n / 4096 mod 16)) (String (hex_digit (n / 256 mod 16))
      (String (hex_digit (n / 16 mod 16)) (String (hex_digit (n mod 16))
        EmptyString))))).

(** The escape of one character below 256 under [ensure_ascii]:
    backslash and double quote get a backslash in front, the five named
    control characters their letter, and every other character outside
    SPACE to TILDE the six-character form with four hexadecimal
    digits. *)
Definition escape_char (c : ascii) : string :=
  let n := N_of_ascii c in
  let bs := String PyStr.backslash in
  if (n =? 92)%N then bs (bs EmptyString)
  else if (n =? 34)%N then bs (String PyStr.dquote EmptyString)
  else if (n =? 8)%N then bs "b"
  else if (n =? 12)%N then bs "f"
  else if (n =? 10)%N then bs "n"
  else if (n =? 13)%N then bs "r"
  else if (n =? 9)%N then bs "t"
  else if (n <? 32)%N || (126 <? n)%N then u_escape n
  else String c EmptyString.

(** The escape of a character from 128 on, given by its code point: one
    six-character form, or the two of its surrogate pair from 65536
    on. *)
Definition escape_code_point (cp : N) : string :=
  if (cp <? 65536)%N then u_escape cp
  else u_escape (55296 + (cp - 65536) / 1024)
         +:+ u_escape (56320 + (cp - 65536) mod 1024).

(** The payload of a UTF-8 continuation byte. *)
Definition continuation (c : ascii) : option N :=
  let n := N_of_ascii c in
  if (128 <=? n)%N && (n <? 192)%N then Some (n - 128)%N else None.

(** The escape of a string: an ASCII character by [escape_char]; a
    UTF-8 sequence of two, three or four bytes by the escape of the code
    point it encodes.  Bytes that form no such sequence stand for no
    Python string; they are escaped one by one. *)
Fixpoint escape (s : string) : string :=
  match s with
  | EmptyString => EmptyString
  | String c s1 =>
      let n := N_of_ascii c in
      let alone := escape_char c +:+ escape s1 in
      if (n <? 192)%N then alone
      else
        match s1 with
        | String c1 s2 =>
            match continuation c1 with
            | Some x1 =>
                if (n <? 224)%N
                then escape_code_point ((n - 192) * 64 + x1) +:+ escape s2
                else
                  match s2 with
                  | String c2 s3 =>
                      match continuation c2 with
                      | Some x2 =>
                          if (n <? 240)%N
                          then escape_code_point (((n - 224) * 64 + x1) * 64 + x2)
                                 +:+ escape s3
                          else
                            match s3 with
                            | String c3 s4 =>
                                match continuation c3 with
                                | Some x3 =>
                                    escape_code_point
                                      ((((n - 240) * 64 + x1) * 64 + x2) * 64 + x3)
                                      +:+ escape s4
                                | None => alone
                                end
                            | EmptyString => alone
                            end
                      | None => alone
                      end
                  | EmptyString => alone
                  end
            | None => alone
            end
        | EmptyString => alone
        end
  end.

(** A string as JSON text: its escape between double quotes. *)
Definition encode_basestring_ascii (s : string) : string :=
  String PyStr.dquote (escape s +:+ String PyStr.dquote EmptyString).

(** The members of an object under [indent=4]: key, colon and space,
    value; a comma, a new line and four spaces between two members;
    [rest] after the last one. *)
Fixpoint members (enc : string → string) (items : list (string * string))
    (rest : string) : string :=
  match items with
  | [] => rest
  | [(k, v)] => enc k +:+ ": " +:+ enc v +:+ rest
  | (k, v) :: items' =>
      enc k +:+ ": " +:+ enc v +:+ String "," (String newline "    ")
        +:+ members enc items' rest
  end.

(** [sort_keys=True]: the items in ascending order of their keys. *)
Definition sorted_items (d : gmap string string) : list (string * string) :=
  Record.sort_by_func (map_to_list d).

(** [json.dumps(d, indent=4, sort_keys=True)] with the string encoder
    [enc]: an empty dictionary is a pair of braces; otherwise the members
    stand on lines of their own between the braces. *)
Definition dumps_with (enc : string → string) (d : gmap string string) : string :=
  match sorted_items d with
  | [] => "{}"
  | items => String "{" (String newline "    ") +:+ members enc items (String newline "}")
  end.

Definition dumps : gmap string string → string :=
  dumps_with encode_basestring_ascii.

End PyJson.

(* ================================================================== *)
(** * build/lib/interface/interface.py *)
(* ================================================================== *)

Module Interface.

(** [load_new_ast]: an empty path raises; then [os.path.getsize] is
    called on the path (its value only decides a warning) and raises if
    it cannot stat it; only then the tree producer is asked for the tree
    of [file_path]. *)
Definition load_new_ast (e : env) (file_path : string) : M node :=
  if PyStr.truthy file_path then
    match path_getsize e file_path with
    | None => raise OSError
    | Some size =>
        modify (λ s, set_requested (requested s ++ [file_path]) s) ;;
        match parse_file e file_path with
        | Some ast => mret ast
        | None => raise TreeProducerError
        end
    end
  else raise NoneFilePathError.

(** [process_out_data]: [json_data.replace] of two backslashes by one. *)
Definition process_out_data (json_data : string) : string :=
  PyStr.replace bs2 bs1 json_data.


(** [convert_dict_to_json]: the new value of [self.json_data], the
    [json.dumps] text after [process_out_data]. *)
Definition convert_dict_to_json (data : gmap string string) : string :=
  process_out_data (PyJson.dumps data).

End Interface.

(* ================================================================== *)
(** * build/lib/core/core.py *)
(* ================================================================== *)

Module Core.

Definition process_files (e : env) (files : list file_io) : M unit :=
  match files with
  | [] => raise NoFilesSpecifiedError
  | _ =>
      for_each (λ f_str,
        ast ← Interface.load_new_ast e (name f_str);
        AstParser.process_ast e ast) files ;;
      Record.integrate_list_to_dict
  end.


(** [generate_bundle]: [self._intr.convert_dict_to_json] on
    [Record.str_func_dict]; its effect is the text it leaves in
    [self._intr.json_data]. *)
Definition generate_bundle : M unit :=
  data ← gets str_func_dict;
  modify (set_json_data (Some (Interface.convert_dict_to_json data))).

End Core.

(** The state of a process before [Core.process_files]: [Record]'s class
    attributes at their initial values, and the [AstParser] built by
    [Core.__init__]. *)
Definition initial_state : state :=
  (AstParser.__init__ (State [] ∅ [] 0%nat [] [] None)).1.

(* ================================================================== *)
(** * Reference definitions the properties are stated against *)
(* ================================================================== *)

(** The value [visit_Constant] keeps for a constant's text, if any. *)
Definition kept (value : string) : list string :=
  match PyStr.int value with
  | Some _ => []
  | None =>
      if PyStr.truthy (ConstantVisitor.strip value)
      then [ConstantVisitor.strip value] else []
  end.

(** A constant's text is kept when [visit_Constant] appends its stripped
    form to the visitor's list, and discarded when the call changes
    nothing. *)
Definition keeps (value : string) : Prop :=
  ∀ st values l, lists st !! values = Some l →
    lists (ConstantVisitor.visit_Constant values value st).1 !! values
    = Some (l ++ [ConstantVisitor.strip value]).

Definition discards (value : string) : Prop :=
  ∀ st values, (ConstantVisitor.visit_Constant values value st).1 = st.

(** The two string clean-ups of the sources, one after the other: the
    quote removal of [visit_Constant], then the backslash collapsing of
    [process_out_data]. *)
Definition normalize (s : string) : string :=
  Interface.process_out_data (ConstantVisitor.strip s).

(** Whether two backslashes stand next to each other somewhere in [s]. *)
Fixpoint has_backslash_pair (s : string) : bool :=
  match s with
  | EmptyString => false
  | String _ s' =>
      String.prefix bs2 s || has_backslash_pair s'
  end.

(** [r] without its last character when that is a double quote. *)
Fixpoint unsnoc_dquote (r : string) : option string :=
  match r with
  | EmptyString => None
  | String c EmptyString => if Ascii.eqb c PyStr.dquote then Some EmptyString else None
  | String c r' => String c <$> unsnoc_dquote r'
  end.

(** In the specification's words, a text with its wrapping quote
    characters removed: the text between a leading and a trailing double
    quote, or the text itself when it is not wrapped. *)
Definition spec_unwrap (text : string) : string :=
  match text with
  | EmptyString => EmptyString
  | String c r =>
      if Ascii.eqb c PyStr.dquote
      then default text (unsnoc_dquote r)
      else text
  end.

(** In the specification's words, the final literal value: wrapping
    quote characters stripped and escaped backslash pairs collapsed to
    single backslashes. *)
Definition spec_literal_value (text : string) : string :=
  Interface.process_out_data (spec_unwrap text).

(** Example texts: [s] between double quotes, as the parser hands over a
    string literal, and runs of backslashes. *)
Definition quoted (s : string) : string :=
  String PyStr.dquote (s +:+ String PyStr.dquote EmptyString).

Definition backslashes (n : nat) : string :=
  Nat.iter n (String PyStr.backslash) EmptyString.

(** The literal values found inside a node, in traversal order. *)
Fixpoint own_literals (n : node) : list string :=
  match n with
  | Constant _ value => kept value
  | FuncDef _ children => children ≫= own_literals
  | Node _ children => children ≫= own_literals
  end.

(** The function definitions of a tree, in traversal order, not looking
    inside a function definition for further ones. *)
Fixpoint func_defs (n : node) : list node :=
  match n with
  | FuncDef _ _ => [n]
  | Constant _ _ => []
  | Node _ children => children ≫= func_defs
  end.

(** The Associations of one function: its name with each of its own
    literal values. *)
Definition associations (f : node) : list (string * string) :=
  match f with
  | FuncDef fname _ => (λ s, (fname, s)) <$> own_literals f
  | _ => []
  end.

(** The Associations of a whole tree, function after function. *)
Definition tree_associations (ast : node) : list (string * string) :=
  func_defs ast ≫= associations.

(** The parser as [AstParser.__init__] leaves it: the visitor's list
    object exists and is empty, and no function node is recorded. *)
Definition parser_fresh (st : state) : Prop :=
  lists st !! const_visitor_values st = Some [] ∧ func_visitor_nodes st = [].

(** The Associations a literal-uniqueness adjudication lets through. *)
Definition survivors (tpl : list (string * string)) : list (string * string) :=
  filter (λ i, Record.count i.2 (Record.strings_of tpl) = 1%nat) tpl.

(** The trees the producer yields for the files of a run, and the
    Associations of the whole run. *)
Definition trees (e : env) (files : list file_io) : list node :=
  omap (λ f, parse_file e (name f)) files.

Definition run_associations (e : env) (files : list file_io) : list (string * string) :=
  trees e files ≫= tree_associations.

(** A file the pipeline gets through: it has a path, [os.path.getsize]
    returns on it, the producer yields a tree for it, the tree is not
    below the size threshold and defines a function. *)
Definition file_ok (e : env) (f : file_io) : Prop :=
  name f ≠ EmptyString ∧
  is_Some (path_getsize e (name f)) ∧
  ∃ ast, parse_file e (name f) = Some ast ∧
         AstParser.MIN_BYTES <= getsizeof e ast ∧ func_defs ast ≠ [].

(** A state of the Aggregation Store: the initial process state with the
    given Candidate List and Output Mapping. *)
Definition store_state (tpl : list (string * string)) (d : gmap string string) : state :=
  set_str_func_dict d (set_tpl_list tpl initial_state).

(** Appending a batch of Associations, one [add_func_str_to_list] each. *)
Definition append_all (batch : list (string * string)) : M unit :=
  for_each (λ p, Record.add_func_str_to_list p.1 p.2) batch.

(** The Candidate List of the two-function example: [f1] uses "shared"
    and "only_f1", [f2] uses "shared". *)
Definition example_candidates : list (string * string) :=
  [("f1", "shared"); ("f1", "only_f1"); ("f2", "shared")].

(** The same example as a run over two files: [f1.c] defines [f1],
    which uses "shared", the integer 42 and "only_f1"; [f2.c] defines
    [f2], which uses "shared" and the integer 7.  [example_tree] holds
    both functions in one tree. *)
Definition example_f1 : node :=
  FuncDef "f1" [Node "Compound"
    [Constant "string" (quoted "shared"); Constant "int" "42";
     Constant "string" (quoted "only_f1")]].

Definition example_f2 : node :=
  FuncDef "f2" [Node "Compound"
    [Constant "string" (quoted "shared"); Constant "int" "7"]].

Definition example_tree : node := Node "FileAST" [example_f1; example_f2].

Definition example_env : env :=
  Env (λ path,
         if String.eqb path "f1.c" then Some (Node "FileAST" [example_f1])
         else if String.eqb path "f2.c" then Some (Node "FileAST" [example_f2])
         else None)
      (λ _, 48)
      (λ path, if String.eqb path "missing.c" then None else Some 1024).

Definition example_files : list file_io := [FileIO "f1.c" "r"; FileIO "f2.c" "r"].

(** The example with "only_f1" used twice inside [f1]. *)
Definition example_f1_twice : node :=
  FuncDef "f1" [Node "Compound"
    [Constant "string" (quoted "shared"); Constant "string" (quoted "only_f1");
     Constant "string" (quoted "only_f1")]].

Definition example_env_twice : env :=
  Env (λ path,
         if String.eqb path "f1.c" then Some (Node "FileAST" [example_f1_twice])
         else if String.eqb path "f2.c" then Some (Node "FileAST" [example_f2])
         else None)
      (λ _, 48)
      (λ _, Some 1024).

(** Why the pipeline stops at a file, if it does: the file has no path,
    its size cannot be read, the producer raises, the tree is below the
    size threshold, or it defines no function. *)
Definition file_failure (e : env) (f : file_io) : option error :=
  if PyStr.truthy (name f) then
    match path_getsize e (name f) with
    | None => Some OSError
    | Some _ =>
        match parse_file e (name f) with
        | None => Some TreeProducerError
        | Some ast =>
            if getsizeof e ast <? AstParser.MIN_BYTES then Some AstEmptyError
            else match func_defs ast with
                 | [] => Some NoFunctionsFoundError
                 | _ => None
                 end
        end
    end
  else Some NoneFilePathError.

(** Whether the tree producer gets to see a file: it has a path and
    [os.path.getsize] returns on it. *)
Definition handed_to_producer (e : env) (f : file_io) : bool :=
  PyStr.truthy (name f) && bool_decide (is_Some (path_getsize e (name f))).

(** The files before the first one the pipeline stops at, and that file
    with its exception. *)
Fixpoint ok_prefix (e : env) (files : list file_io) : list file_io :=
  match files with
  | [] => []
  | f :: rest =>
      match file_failure e f with
      | None => f :: ok_prefix e rest
      | Some _ => []
      end
  end.

Fixpoint first_failure (e : env) (files : list file_io) : option (file_io * error) :=
  match files with
  | [] => None
  | f :: rest =>
      match file_failure e f with
      | None => first_failure e rest
      | Some err => Some (f, err)
      end
  end.

(** Printable ASCII other than the double quote. *)
Definition printable (c : ascii) : bool :=
  let n := PyStr.code c in
  (32 <=? n) && (n <=? 126) && negb (n =? 34).

Fixpoint all_printable (s : string) : bool :=
  match s with
  | EmptyString => true
  | String c s' => printable c && all_printable s'
  end.

(** Ascending order of function names (or of keys). *)
Definition func_le (x y : string * string) : Prop := String.leb x.1 y.1 = true.

(* ================================================================== *)
(** * Facts about [Record] *)
(* ================================================================== *)

Section RecordFacts.
Implicit Types (tpl : list (string * string)) (strs : list string).
Implicit Types (s fn : string) (d : gmap string string).

Lemma filter_ext_elem {A} (P Q : A → Prop)
    `{!∀ x, Decision (P x)} `{!∀ x, Decision (Q x)} (l : list A) :
  (∀ x, x ∈ l → (P x ↔ Q x)) → filter P l = filter Q l.
Proof.
  induction l as [|a l IH]; intros HPQ; [done|].
  rewrite !filter_cons.
  rewrite IH by (intros x Hx; apply HPQ; by right).
  destruct (decide (P a)) as [Hp|Hp], (decide (Q a)) as [Hq|Hq]; try done.
  - exfalso. apply Hq, HPQ; [by left | done].
  - exfalso. apply Hp, HPQ; [by left | done].
Qed.

Lemma count_nil s : Record.count s [] = 0%nat.
Proof. done. Qed.

Lemma count_cons s x strs :
  Record.count s (x :: strs) =
  ((if decide (x = s) then 1 else 0) + Record.count s strs)%nat.
Proof.
  unfold Record.count. rewrite filter_cons. by destruct (decide (x = s)).
Qed.

Lemma count_app s strs1 strs2 :
  Record.count s (strs1 ++ strs2) = (Record.count s strs1 + Record.count s strs2)%nat.
Proof. unfold Record.count. by rewrite filter_app, length_app. Qed.

Lemma count_pos_elem_of s strs : (0 < Record.count s strs)%nat ↔ s ∈ strs.
Proof.
  induction strs as [|x strs IH].
  - rewrite count_nil. split; [lia | by intros ?%elem_of_nil].
  - rewrite count_cons, elem_of_cons. destruct (decide (x = s)) as [->|Hne].
    + split; [by left | lia].
    + simpl. rewrite IH. split; [by right | by intros [?|?]].
Qed.

Lemma count_zero_not_elem_of s strs : Record.count s strs = 0%nat ↔ s ∉ strs.
Proof. rewrite <- count_pos_elem_of. lia. Qed.

Lemma count_Permutation s strs1 strs2 :
  strs1 ≡ₚ strs2 → Record.count s strs1 = Record.count s strs2.
Proof. intros Hp. unfold Record.count. by rewrite Hp. Qed.

Lemma count_filter_le s (P : string * string → Prop) `{!∀ x, Decision (P x)} tpl :
  (Record.count s (filter P tpl).*2 ≤ Record.count s tpl.*2)%nat.
Proof.
  induction tpl as [|i tpl IH]; [done|].
  rewrite filter_cons. destruct (decide (P i)); rewrite !fmap_cons, ?count_cons; lia.
Qed.

Lemma NoDup_count_le strs :
  (∀ s, s ∈ strs → (Record.count s strs ≤ 1)%nat) → NoDup strs.
Proof.
  induction strs as [|x strs IH]; intros Hc; [constructor|].
  constructor.
  - specialize (Hc x (list_elem_of_here _ _)).
    rewrite count_cons, decide_True in Hc by done.
    apply count_zero_not_elem_of. lia.
  - apply IH. intros s Hs.
    specialize (Hc s (list_elem_of_further _ _ _ Hs)).
    rewrite count_cons in Hc. lia.
Qed.

Lemma count_NoDup s strs : NoDup strs → s ∈ strs → Record.count s strs = 1%nat.
Proof.
  induction 1 as [|x strs Hx Hnd IH]; [by intros ?%elem_of_nil|].
  rewrite elem_of_cons, count_cons. intros [->|Hs].
  - rewrite decide_True by done. apply count_zero_not_elem_of in Hx. lia.
  - rewrite decide_False by (intros ->; done). by rewrite IH.
Qed.

(** The removal loop keeps exactly the tuples whose string is not
    scheduled for removal. *)
Lemma remove_all_filter rs tpl :
  Record.remove_all rs tpl = filter (λ i, i.2 ∉ rs) tpl.
Proof.
  revert tpl. induction rs as [|r rs IH]; intros tpl.
  - simpl. symmetry. induction tpl as [|i tpl IHt]; [done|].
    rewrite filter_cons_True by apply not_elem_of_nil. by f_equal.
  - unfold Record.remove_all in *. simpl. rewrite IH, list_filter_filter.
    apply list_filter_iff. intros i. rewrite not_elem_of_cons. tauto.
Qed.

Lemma elem_of_to_remove s strs :
  s ∈ Record.to_remove_of strs ↔ (1 < Record.count s strs)%nat.
Proof.
  unfold Record.to_remove_of. rewrite list_elem_of_filter.
  split; [tauto|]. intros Hc. split; [done|].
  apply count_pos_elem_of. lia.
Qed.

(** What [remove_non_unique_from_list] leaves: the tuples whose string
    occurs exactly once in the whole list. *)
Lemma remove_non_unique_survivors tpl :
  Record.remove_all (Record.to_remove_of (Record.strings_of tpl)) tpl = survivors tpl.
Proof.
  rewrite remove_all_filter. unfold survivors.
  apply filter_ext_elem. intros i Hi. rewrite elem_of_to_remove.
  assert (0 < Record.count i.2 (Record.strings_of tpl))%nat.
  { apply count_pos_elem_of. unfold Record.strings_of.
    apply list_elem_of_fmap. by exists i. }
  lia.
Qed.

Lemma elem_of_survivors fn s tpl :
  (fn, s) ∈ survivors tpl ↔
  Record.count s (Record.strings_of tpl) = 1%nat ∧ (fn, s) ∈ tpl.
Proof. unfold survivors. by rewrite list_elem_of_filter. Qed.

Lemma survivors_sublist tpl : survivors tpl `sublist_of` tpl.
Proof. apply sublist_filter. Qed.

Lemma survivors_strings_NoDup tpl : NoDup (survivors tpl).*2.
Proof.
  apply NoDup_count_le. intros s Hs.
  apply list_elem_of_fmap in Hs as ([fn s'] & -> & Hi).
  apply elem_of_survivors in Hi as [Hc _]. simpl.
  etrans; [apply count_filter_le|]. unfold Record.strings_of in Hc. lia.
Qed.

Lemma survivors_Permutation tpl1 tpl2 :
  tpl1 ≡ₚ tpl2 → survivors tpl1 ≡ₚ survivors tpl2.
Proof.
  intros Hp. unfold survivors.
  rewrite (filter_ext_elem _
             (λ i, Record.count i.2 (Record.strings_of tpl2) = 1%nat) tpl1).
  - by rewrite Hp.
  - intros i _. unfold Record.strings_of.
    rewrite (count_Permutation _ tpl1.*2 tpl2.*2); [done | by rewrite Hp].
Qed.

(** Sorting permutes. *)
Lemma insert_by_func_Permutation x tpl : Record.insert_by_func x tpl ≡ₚ x :: tpl.
Proof.
  induction tpl as [|y tpl IH]; simpl; [done|].
  destruct (String.leb x.1 y.1); [done|].
  rewrite IH. apply Permutation_swap.
Qed.

Lemma sort_by_func_Permutation tpl : Record.sort_by_func tpl ≡ₚ tpl.
Proof.
  induction tpl as [|x tpl IH]; simpl; [done|].
  by rewrite insert_by_func_Permutation, IH.
Qed.

(** [dict] against stdpp's [list_to_map], which lets the first pair of
    a key win. *)
Lemma dict_snoc (l : list (string * string)) k v :
  Record.dict (l ++ [(k, v)]) = <[k := v]> (Record.dict l).
Proof. unfold Record.dict. by rewrite foldl_snoc. Qed.

Lemma dict_list_to_map (l : list (string * string)) :
  Record.dict l = list_to_map (reverse l).
Proof.
  induction l as [|[k v] l IH] using rev_ind; [done|].
  by rewrite dict_snoc, reverse_snoc, IH.
Qed.

Lemma dict_lookup_NoDup (l : list (string * string)) k v :
  NoDup l.*1 → Record.dict l !! k = Some v ↔ (k, v) ∈ l.
Proof.
  intros Hnd. rewrite dict_list_to_map, <- elem_of_list_to_map.
  - by rewrite elem_of_reverse.
  - by rewrite fmap_reverse, reverse_Permutation.
Qed.

Lemma dict_lookup_None (l : list (string * string)) k :
  Record.dict l !! k = None ↔ k ∉ l.*1.
Proof.
  rewrite dict_list_to_map, <- not_elem_of_list_to_map.
  by rewrite fmap_reverse, elem_of_reverse.
Qed.

Lemma dict_size_NoDup (l : list (string * string)) :
  NoDup l.*1 → size (Record.dict l) = length l.
Proof.
  intros Hnd. rewrite dict_list_to_map, map_size_list_to_map.
  - by rewrite length_reverse.
  - by rewrite fmap_reverse, reverse_Permutation.
Qed.

End RecordFacts.

(* ================================================================== *)
(** * Adjudication: [Record.integrate_list_to_dict] *)
(* ================================================================== *)

Section Adjudication.
Implicit Types (tpl : list (string * string)) (st : state).

(** [integrate_list_to_dict] never raises; it leaves the sorted
    survivors in [tpl_list] and merges their reverse mapping into
    [str_func_dict]. *)
Lemma integrate_eq st :
  Record.integrate_list_to_dict st =
  (let sorted := Record.sort_by_func (survivors (tpl_list st)) in
   set_str_func_dict
     (Record.update (str_func_dict st)
        (Record.dict ((λ t, (t.2, t.1)) <$> sorted)))
     (set_tpl_list sorted st),
   inr tt).
Proof.
  unfold Record.integrate_list_to_dict, Record.remove_non_unique_from_list,
    Record.sort_tmp_list, Record.add_unique_to_dict,
    Verifier.check_list_dict_conversion, mbind, M_bind, gets, modify, mret, M_ret.
  simpl. rewrite remove_non_unique_survivors.
  by destruct (Verifier.check_num_dict_functions _).
Qed.

Lemma remove_non_unique_eq st :
  Record.remove_non_unique_from_list st =
  (set_tpl_list (survivors (tpl_list st)) st, inr tt).
Proof.
  unfold Record.remove_non_unique_from_list, mbind, M_bind, gets, modify.
  simpl. by rewrite remove_non_unique_survivors.
Qed.

Lemma sorted_survivors_strings_NoDup tpl :
  NoDup ((λ t : string * string, (t.2, t.1)) <$> Record.sort_by_func (survivors tpl)).*1.
Proof.
  rewrite <- list_fmap_compose.
  change (NoDup (Record.sort_by_func (survivors tpl)).*2).
  rewrite sort_by_func_Permutation. apply survivors_strings_NoDup.
Qed.

(** The reverse mapping built from a Candidate List: [key] maps to [fn]
    exactly when [key] occurs once in the list, and there with [fn]. *)
Lemma reverse_dict_lookup tpl key fn :
  Record.dict ((λ t, (t.2, t.1)) <$> Record.sort_by_func (survivors tpl)) !! key = Some fn
  ↔ Record.count key (Record.strings_of tpl) = 1%nat ∧ (fn, key) ∈ tpl.
Proof.
  rewrite dict_lookup_NoDup by apply sorted_survivors_strings_NoDup.
  rewrite list_elem_of_fmap, <- elem_of_survivors. split.
  - intros ([fn' key'] & [= -> ->] & Hin).
    by rewrite sort_by_func_Permutation in Hin.
  - intros Hin. exists (fn, key). split; [done|].
    by rewrite sort_by_func_Permutation.
Qed.

Lemma reverse_dict_lookup_None tpl key :
  Record.dict ((λ t, (t.2, t.1)) <$> Record.sort_by_func (survivors tpl)) !! key = None
  ↔ Record.count key (Record.strings_of tpl) ≠ 1%nat.
Proof.
  rewrite eq_None_not_Some. unfold is_Some.
  setoid_rewrite reverse_dict_lookup. split.
  - intros Hno Hc. apply Hno.
    assert (key ∈ Record.strings_of tpl) as Hin by (apply count_pos_elem_of; lia).
    apply list_elem_of_fmap in Hin as ([fn key'] & -> & Hin). by exists fn.
  - intros Hc (fn & Hc' & _). done.
Qed.

(** [add_unique_to_dict] never raises; it merges the reverse mapping of
    the Candidate List into the Output Mapping. *)
Lemma add_unique_eq st :
  Record.add_unique_to_dict st =
  (set_str_func_dict
     (Record.update (str_func_dict st)
        (Record.dict ((λ t, (t.2, t.1)) <$> tpl_list st))) st, inr tt).
Proof.
  unfold Record.add_unique_to_dict, Verifier.check_list_dict_conversion,
    mbind, M_bind, gets, modify, mret, M_ret.
  simpl. by destruct (Verifier.check_num_dict_functions _).
Qed.

(** The size of an update: the new entries, and the old ones whose key
    is not overridden. *)
Lemma size_union_filter (r d : gmap string string) :
  size (r ∪ d) = (size r + size (filter (λ kv, r !! kv.1 = None) d))%nat.
Proof.
  rewrite <- map_size_disj_union.
  - f_equal. apply map_eq. intros k. rewrite !lookup_union.
    destruct (r !! k) as [v|] eqn:Hr; [by rewrite !union_Some_l|].
    rewrite !left_id by apply _.
    destruct (d !! k) as [w|] eqn:Hd.
    + symmetry. by apply map_lookup_filter_Some.
    + symmetry. apply map_lookup_filter_None. by left.
  - apply map_disjoint_spec. intros k v w Hr [_ Hk]%map_lookup_filter_Some.
    simpl in Hk. congruence.
Qed.

(** Appending a batch extends the Candidate List and touches nothing
    else. *)
Lemma append_all_eq batch st :
  append_all batch st = (set_tpl_list (tpl_list st ++ batch) st, inr tt).
Proof.
  revert st. induction batch as [|[fn s] batch IH]; intros st.
  - destruct st. unfold set_tpl_list. simpl. by rewrite app_nil_r.
  - unfold append_all in *. simpl. unfold mbind, M_bind at 1. simpl.
    rewrite IH. destruct st. unfold set_tpl_list. simpl.
    by rewrite <- app_assoc.
Qed.

End Adjudication.

Section AdjudicationClaims.
Implicit Types (tpl : list (string * string)) (st : state).

Lemma integrate_tpl_list st :
  tpl_list (Record.integrate_list_to_dict st).1 =
  Record.sort_by_func (survivors (tpl_list st)).
Proof. by rewrite integrate_eq. Qed.

Lemma integrate_str_func_dict st :
  str_func_dict (Record.integrate_list_to_dict st).1 =
  Record.dict ((λ t, (t.2, t.1)) <$> Record.sort_by_func (survivors (tpl_list st)))
    ∪ str_func_dict st.
Proof. by rewrite integrate_eq. Qed.

(** Lookup in the Output Mapping after one adjudication. *)
Lemma integrate_lookup st key :
  str_func_dict (Record.integrate_list_to_dict st).1 !! key =
  match Record.dict ((λ t, (t.2, t.1)) <$>
                       Record.sort_by_func (survivors (tpl_list st))) !! key with
  | Some fn => Some fn
  | None => str_func_dict st !! key
  end.
Proof.
  rewrite integrate_str_func_dict, lookup_union.
  by destruct (Record.dict _ !! key), (str_func_dict st !! key).
Qed.

(** C3. In a run with a single adjudication (the Output Mapping is
    empty when it starts), adjudication completes, every key of the
    Output Mapping afterwards is a literal that occurs exactly once
    among the strings of the Candidate List it consumed, and a literal
    that occurs in more than one Association is not a key. *)
Theorem C3_keys_occur_exactly_once st :
  str_func_dict st = ∅ →
  let st' := (Record.integrate_list_to_dict st).1 in
  (Record.integrate_list_to_dict st).2 = inr tt ∧
  (∀ key, key ∈ dom (str_func_dict st') →
          Record.count key (Record.strings_of (tpl_list st)) = 1%nat) ∧
  (∀ key, (1 < Record.count key (Record.strings_of (tpl_list st)))%nat →
          key ∉ dom (str_func_dict st')).
Proof.
  intros Hempty st'. split; [by rewrite integrate_eq|].
  assert (∀ key, key ∈ dom (str_func_dict st') →
            Record.count key (Record.strings_of (tpl_list st)) = 1%nat) as Hkeys.
  { intros key [fn Hfn]%elem_of_dom. subst st'.
    rewrite integrate_lookup, Hempty, lookup_empty in Hfn.
    destruct (Record.dict _ !! key) as [fn'|] eqn:Hrev; [|done].
    by apply reverse_dict_lookup in Hrev as [Hc _]. }
  split; [done|].
  intros key Hc Hin. apply Hkeys in Hin. lia.
Qed.

Lemma C3_keys_occur_exactly_once_witness :
  str_func_dict (store_state example_candidates ∅) = ∅ ∧
  Record.count "only_f1" (Record.strings_of example_candidates) = 1%nat ∧
  "shared" ∉ dom (str_func_dict
    (Record.integrate_list_to_dict (store_state example_candidates ∅)).1).
Proof.
  pose proof (C3_keys_occur_exactly_once (store_state example_candidates ∅) eq_refl)
    as (_ & Hkey & Hshared).
  split; [reflexivity|]. split.
  - apply Hkey. apply elem_of_dom. exists "f1". vm_compute. reflexivity.
  - apply Hshared. vm_compute. lia.
Defined.

(** C7. Evaluation of [integrate_list_to_dict] on the example Candidate
    List: it completes, and the Candidate List it leaves behind is not
    empty -- it still holds the surviving Association. *)
Theorem C7_candidate_list_not_cleared :
  let st' := (Record.integrate_list_to_dict (store_state example_candidates ∅)).1 in
  (Record.integrate_list_to_dict (store_state example_candidates ∅)).2 = inr tt ∧
  tpl_list st' = [("f1", "only_f1")] ∧
  tpl_list st' ≠ [].
Proof. simpl. rewrite integrate_eq. split; [done|]. split; [|done]. reflexivity. Qed.

(** One adjudication as an upsert on an arbitrary Output Mapping. *)
Lemma integrate_upsert st :
  let st' := (Record.integrate_list_to_dict st).1 in
  (∀ key, key ∈ dom (str_func_dict st) → key ∈ dom (str_func_dict st')) ∧
  (∀ key fn, (fn, key) ∈ survivors (tpl_list st) →
             str_func_dict st' !! key = Some fn) ∧
  (∀ key, key ∉ (survivors (tpl_list st)).*2 →
          str_func_dict st' !! key = str_func_dict st !! key).
Proof.
  intros st'. subst st'. split; [|split].
  - intros key Hin. rewrite integrate_str_func_dict, dom_union_L.
    apply elem_of_union. by right.
  - intros key fn Hin. rewrite integrate_lookup.
    apply elem_of_survivors in Hin.
    apply reverse_dict_lookup in Hin. by rewrite Hin.
  - intros key Hnot. rewrite integrate_lookup.
    destruct (Record.dict _ !! key) as [fn|] eqn:Hrev; [|done].
    exfalso. apply Hnot.
    apply reverse_dict_lookup, elem_of_survivors in Hrev.
    apply list_elem_of_fmap. by exists (fn, key).
Qed.



(** C10. For every Candidate List and Output Mapping, the removal step
    completes and what it leaves has pairwise distinct literal values
    and is a sublist of the list before removal (same relative order).
    Running [sort_tmp_list] and then [add_unique_to_dict] on it
    completes as well and leaves every survivor's literal mapped to its
    function; any other entry of the Output Mapping is an entry it had
    before, under a key that is no survivor's literal; and the Output
    Mapping has one entry per survivor next to these old entries, so no
    survivor is lost and no two survivors share an entry. *)
Theorem C10_survivors_distinct_and_all_mapped st :
  let st1 := (Record.remove_non_unique_from_list st).1 in
  let st2 := (Record.sort_tmp_list st1).1 in
  let st3 := (Record.add_unique_to_dict st2).1 in
  let left := tpl_list st1 in
  (Record.remove_non_unique_from_list st).2 = inr tt ∧
  NoDup left.*2 ∧
  left `sublist_of` tpl_list st ∧
  (Record.add_unique_to_dict st2).2 = inr tt ∧
  (∀ fn s, (fn, s) ∈ left → str_func_dict st3 !! s = Some fn) ∧
  (∀ fn s, str_func_dict st3 !! s = Some fn →
           (fn, s) ∈ left ∨ (s ∉ left.*2) ∧ str_func_dict st !! s = Some fn) ∧
  size (str_func_dict st3) =
    (length left + size (filter (λ kv, kv.1 ∉ left.*2) (str_func_dict st)))%nat.
Proof.
  intros st1 st2 st3 left. subst left st3 st2 st1.
  rewrite add_unique_eq, remove_non_unique_eq.
  cbn [fst snd]. unfold Record.sort_tmp_list, mbind, M_bind, gets, modify.
  cbn [fst snd]. destruct st as [tpl d ls v nodes req jd].
  unfold set_tpl_list, set_str_func_dict, Record.update. cbn [tpl_list str_func_dict].
  set (r := Record.dict _).
  assert (∀ fn s, r !! s = Some fn ↔ (fn, s) ∈ survivors tpl) as Hr.
  { intros fn s. subst r. by rewrite reverse_dict_lookup, elem_of_survivors. }
  assert (∀ s, r !! s = None ↔ s ∉ (survivors tpl).*2) as Hnone.
  { intros s. rewrite eq_None_not_Some. unfold is_Some. setoid_rewrite Hr.
    rewrite list_elem_of_fmap. split.
    - intros Hno ([fn s'] & -> & Hin). apply Hno. by exists fn.
    - intros Hno [fn Hin]. apply Hno. by exists (fn, s). }
  split; [done|]. split; [apply survivors_strings_NoDup|].
  split; [apply survivors_sublist|]. split; [done|]. split; [|split].
  - intros fn s Hin. apply lookup_union_Some_raw. left. by apply Hr.
  - intros fn s [Hl|[Hn Hd]]%lookup_union_Some_raw.
    + left. by apply Hr.
    + right. split; [by apply Hnone|done].
  - rewrite size_union_filter. f_equal.
    + subst r. rewrite dict_size_NoDup by apply sorted_survivors_strings_NoDup.
      by rewrite length_fmap, sort_by_func_Permutation.
    + f_equal. apply map_filter_ext. intros k w _. simpl. apply Hnone.
Qed.

Lemma C10_survivors_distinct_and_all_mapped_witness :
  let st := store_state example_candidates ∅ in
  let st3 := (Record.add_unique_to_dict
                (Record.sort_tmp_list (Record.remove_non_unique_from_list st).1).1).1 in
  str_func_dict st3 !! "only_f1" = Some "f1" ∧ size (str_func_dict st3) = 1%nat.
Proof.
  intros st st3.
  pose proof (C10_survivors_distinct_and_all_mapped st) as (_ & _ & _ & _ & Hin & _ & Hsize).
  split.
  - apply Hin. vm_compute. apply list_elem_of_here.
  - subst st3. rewrite Hsize. vm_compute. reflexivity.
Defined.

End AdjudicationClaims.

(* ================================================================== *)
(** * Facts about the string clean-ups *)
(* ================================================================== *)

Section StringFacts.
Implicit Types (s r text : string) (c : ascii).


Local Arguments ascii_dec : simpl never.

Lemma append_cons c s r : String c s +:+ r = String c (s +:+ r).
Proof. done. Qed.

Lemma prefix_cons a s1 b s2 :
  String.prefix (String a s1) (String b s2) =
  if Ascii.eqb a b then String.prefix s1 s2 else false.
Proof.
  cbn [String.prefix].
  destruct (ascii_dec a b) as [->|Hne]; [by rewrite Ascii.eqb_refl|].
  by destruct (Ascii.eqb_spec a b).
Qed.

Lemma prefix_nil s : String.prefix EmptyString s = true.
Proof. by destruct s. Qed.

Lemma prefix_bs2 c s :
  String.prefix bs2 (String c s) =
  Ascii.eqb PyStr.backslash c &&
  match s with
  | EmptyString => false
  | String c' _ => Ascii.eqb PyStr.backslash c'
  end.
Proof.
  rewrite prefix_cons.
  destruct (Ascii.eqb PyStr.backslash c); [|done]. cbn [andb].
  destruct s as [|c' s']; [done|]. rewrite prefix_cons, prefix_nil.
  by destruct (Ascii.eqb PyStr.backslash c').
Qed.

Lemma replace_from_here old new c s :
  PyStr.replace_from old new 0 (String c s) =
  if String.prefix old (String c s)
  then new +:+ PyStr.replace_from old new (Nat.pred (String.length old)) s
  else String c (PyStr.replace_from old new 0 s).
Proof. done. Qed.

Lemma replace_from_skip old new k c s :
  PyStr.replace_from old new (S k) (String c s) = PyStr.replace_from old new k s.
Proof. done. Qed.

Lemma collapse_cons c s :
  PyStr.replace_from bs2 bs1 0 (String c s) =
  if String.prefix bs2 (String c s)
  then String PyStr.backslash (PyStr.replace_from bs2 bs1 1 s)
  else String c (PyStr.replace_from bs2 bs1 0 s).
Proof. done. Qed.

Lemma strip_nil : ConstantVisitor.strip EmptyString = EmptyString.
Proof. done. Qed.

Lemma strip_cons c s :
  ConstantVisitor.strip (String c s) =
  if Ascii.eqb c PyStr.dquote then ConstantVisitor.strip s
  else String c (ConstantVisitor.strip s).
Proof.
  unfold ConstantVisitor.strip, PyStr.replace.
  rewrite replace_from_here, prefix_cons, prefix_nil, Ascii.eqb_sym.
  by destruct (Ascii.eqb c PyStr.dquote).
Qed.

Lemma strip_app s r :
  ConstantVisitor.strip (s +:+ r) = ConstantVisitor.strip s +:+ ConstantVisitor.strip r.
Proof.
  induction s as [|c s IH]; [done|].
  rewrite append_cons, !strip_cons, IH.
  by destruct (Ascii.eqb c PyStr.dquote).
Qed.

Lemma strip_no_dquote s :
  PyStr.contains PyStr.dquote s = false → ConstantVisitor.strip s = s.
Proof.
  induction s as [|c s IH]; [done|]. cbn [PyStr.contains].
  intros [Hc Hs]%orb_false_iff. by rewrite strip_cons, Hc, IH.
Qed.

Lemma strip_contains s : PyStr.contains PyStr.dquote (ConstantVisitor.strip s) = false.
Proof.
  induction s as [|c s IH]; [done|]. rewrite strip_cons.
  destruct (Ascii.eqb c PyStr.dquote) eqn:Hc; [done|].
  cbn [PyStr.contains]. by rewrite Hc.
Qed.

Lemma strip_idempotent s :
  ConstantVisitor.strip (ConstantVisitor.strip s) = ConstantVisitor.strip s.
Proof. apply strip_no_dquote, strip_contains. Qed.

Lemma unsnoc_dquote_Some r body :
  unsnoc_dquote r = Some body → r = body +:+ dq.
Proof.
  revert body. induction r as [|c r IH]; intros body; [done|].
  destruct r as [|c' r'].
  - cbn [unsnoc_dquote].
    destruct (Ascii.eqb_spec c PyStr.dquote) as [->|_]; [|done].
    by intros [= <-].
  - change (unsnoc_dquote (String c (String c' r')))
      with (String c <$> unsnoc_dquote (String c' r')).
    destruct (unsnoc_dquote (String c' r')) as [b|]; [|done].
    intros [= <-]. rewrite append_cons. f_equal. by apply IH.
Qed.

(** Where the only double quotes of a text are the wrapping pair,
    taking out every double quote is unwrapping. *)
Lemma strip_spec_unwrap text :
  PyStr.contains PyStr.dquote (spec_unwrap text) = false →
  ConstantVisitor.strip text = spec_unwrap text.
Proof.
  destruct text as [|c r]; [done|]. unfold spec_unwrap.
  destruct (Ascii.eqb c PyStr.dquote) eqn:Hc.
  - destruct (unsnoc_dquote r) as [body|] eqn:Hr; cbn [default].
    + intros Hbody. apply unsnoc_dquote_Some in Hr as ->.
      rewrite strip_cons, Hc, strip_app, (strip_no_dquote body) by done.
      rewrite strip_cons, Ascii.eqb_refl, strip_nil.
      clear. induction body as [|? ? IH]; [done|].
      by rewrite append_cons, IH.
    + cbn [PyStr.contains]. by rewrite Hc.
  - apply strip_no_dquote.
Qed.

(** Backslash collapsing. *)
Lemma collapse_length_le k s :
  (String.length (PyStr.replace_from bs2 bs1 k s) ≤ String.length s)%nat.
Proof.
  revert k. induction s as [|c s IH]; intros k; [done|].
  destruct k as [|k].
  - rewrite collapse_cons. destruct (String.prefix bs2 (String c s)).
    + cbn [String.length]. specialize (IH 1%nat). lia.
    + cbn [String.length]. specialize (IH 0%nat). lia.
  - rewrite replace_from_skip. cbn [String.length]. specialize (IH k). lia.
Qed.

Lemma collapse_no_pair s :
  has_backslash_pair s = false → Interface.process_out_data s = s.
Proof.
  unfold Interface.process_out_data, PyStr.replace.
  induction s as [|c s IH]; [done|].
  cbn [has_backslash_pair].
  intros [Hp Hs]%orb_false_iff.
  rewrite collapse_cons, Hp. f_equal. by apply IH.
Qed.

Lemma collapse_pair_shorter s :
  has_backslash_pair s = true →
  (String.length (Interface.process_out_data s) < String.length s)%nat.
Proof.
  unfold Interface.process_out_data, PyStr.replace.
  induction s as [|c s IH]; [done|].
  cbn [has_backslash_pair]. intros Hp.
  rewrite collapse_cons.
  destruct (String.prefix bs2 (String c s)) eqn:Hpre.
  - rewrite prefix_bs2 in Hpre. apply andb_true_iff in Hpre as [_ Hs].
    destruct s as [|c' s']; [done|].
    rewrite replace_from_skip. cbn [String.length].
    pose proof (collapse_length_le 0 s'). lia.
  - simpl in Hp. specialize (IH Hp). cbn [String.length]. lia.
Qed.

Lemma collapse_fixed_iff s :
  Interface.process_out_data s = s ↔ has_backslash_pair s = false.
Proof.
  split; [|apply collapse_no_pair].
  intros Heq. destruct (has_backslash_pair s) eqn:Hp; [|done].
  apply collapse_pair_shorter in Hp. rewrite Heq in Hp. lia.
Qed.

Lemma collapse_contains k s :
  PyStr.contains PyStr.dquote s = false →
  PyStr.contains PyStr.dquote (PyStr.replace_from bs2 bs1 k s) = false.
Proof.
  revert k. induction s as [|c s IH]; intros k; [done|].
  cbn [PyStr.contains]. intros [Hc Hs]%orb_false_iff.
  destruct k as [|k]; [|by rewrite replace_from_skip; apply IH].
  rewrite collapse_cons.
  destruct (String.prefix bs2 (String c s)) eqn:Hpre.
  - rewrite prefix_bs2 in Hpre. apply andb_true_iff in Hpre as [Hb _].
    apply Ascii.eqb_eq in Hb as <-.
    cbn [PyStr.contains]. by rewrite Hc, IH.
  - cbn [PyStr.contains]. by rewrite Hc, IH.
Qed.

Lemma normalize_contains s : PyStr.contains PyStr.dquote (normalize s) = false.
Proof. apply collapse_contains, strip_contains. Qed.

(** Normalizing a normalized value only collapses once more. *)
Lemma normalize_normalize s :
  normalize (normalize s) = Interface.process_out_data (normalize s).
Proof.
  unfold normalize at 1. by rewrite (strip_no_dquote _ (normalize_contains s)).
Qed.

End StringFacts.

(* ================================================================== *)
(** * The constant filter: [ConstantVisitor.visit_Constant] *)
(* ================================================================== *)

Section ConstantFilter.
Implicit Types (st : state) (values : loc) (value text : string).

Lemma set_lists_id st : set_lists (lists st) st = st.
Proof. by destruct st. Qed.

(** [visit_Constant] appends [kept value] to the visitor's list object
    and never raises. *)
Lemma visit_Constant_eq values value st :
  ConstantVisitor.visit_Constant values value st =
  (set_lists (alter (λ l, l ++ kept value) values (lists st)) st, inr tt).
Proof.
  unfold ConstantVisitor.visit_Constant, kept.
  assert (set_lists (alter (λ l, l ++ []) values (lists st)) st = st) as Hid.
  { rewrite list_alter_id by (intros; apply app_nil_r). apply set_lists_id. }
  destruct (PyStr.int value); [by rewrite Hid|].
  destruct (PyStr.truthy (ConstantVisitor.strip value)); [done|by rewrite Hid].
Qed.

Lemma truthy_ne s : PyStr.truthy s = true ↔ s ≠ EmptyString.
Proof. by destruct s. Qed.

Lemma keeps_iff value :
  keeps value ↔ PyStr.int value = None ∧ ConstantVisitor.strip value ≠ EmptyString.
Proof.
  rewrite <- truthy_ne. split.
  - intros Hk. specialize (Hk initial_state 0%nat [] eq_refl).
    rewrite visit_Constant_eq in Hk. unfold kept in Hk.
    destruct (PyStr.int value); [done|].
    by destruct (PyStr.truthy (ConstantVisitor.strip value)).
  - intros [Hint Ht] st values l Hl.
    rewrite visit_Constant_eq. unfold kept. rewrite Hint, Ht.
    unfold set_lists. cbn [fst lists].
    by rewrite list_lookup_alter_eq, Hl.
Qed.

Lemma discards_iff value :
  discards value ↔ ¬ (PyStr.int value = None ∧ ConstantVisitor.strip value ≠ EmptyString).
Proof.
  rewrite <- truthy_ne. split.
  - intros Hd [Hint Ht]. specialize (Hd initial_state 0%nat).
    rewrite visit_Constant_eq in Hd. unfold kept in Hd.
    rewrite Hint, Ht in Hd. by apply (f_equal lists) in Hd.
  - intros Hno st values. rewrite visit_Constant_eq. simpl.
    assert (kept value = []) as ->.
    { unfold kept. destruct (PyStr.int value); [done|].
      destruct (PyStr.truthy _); [|done]. by destruct Hno. }
    rewrite list_alter_id by (intros; apply app_nil_r). apply set_lists_id.
Qed.

(** C4, as stated, fails on the empty string literal: its text, two
    double quotes, does not parse as an integer, yet nothing is kept. *)
Lemma C4_empty_literal_fails_parse_but_is_discarded :
  PyStr.int (quoted EmptyString) = None ∧
  discards (quoted EmptyString) ∧
  ¬ (keeps (quoted EmptyString) ↔ PyStr.int (quoted EmptyString) = None).
Proof.
  split; [reflexivity|]. split.
  - apply discards_iff. intros [_ Hne]. by apply Hne.
  - rewrite keeps_iff. intros [_ Hk]. by destruct (Hk eq_refl) as [_ Hne].
Qed.

(** C4, amended. The filter keeps a constant's value exactly when its
    text fails the integer parse and is not empty once the quote
    characters are taken out, and discards it in every other case; the
    text 42 is discarded, the text 3.14 is kept as the string 3.14. *)
Theorem C4_kept_iff_parse_fails_and_nonempty :
  (∀ value,
     (keeps value ↔
      PyStr.int value = None ∧ ConstantVisitor.strip value ≠ EmptyString) ∧
     (discards value ↔
      ¬ (PyStr.int value = None ∧ ConstantVisitor.strip value ≠ EmptyString))) ∧
  PyStr.int "42" = Some 42 ∧ discards "42" ∧
  PyStr.int "3.14" = None ∧ keeps "3.14" ∧ ConstantVisitor.strip "3.14" = "3.14".
Proof.
  split; [intros value; split; [apply keeps_iff | apply discards_iff]|].
  split; [reflexivity|]. split.
  { apply discards_iff. by intros [? _]. }
  split; [reflexivity|]. split; [|reflexivity].
  apply keeps_iff. by split.
Qed.

Lemma C4_kept_iff_parse_fails_and_nonempty_witness :
  keeps "0x1F" ∧ discards " +4_2 ".
Proof.
  destruct C4_kept_iff_parse_fails_and_nonempty as [Hall _].
  split.
  - apply (Hall "0x1F"). split; [reflexivity | discriminate].
  - apply (Hall " +4_2 "). intros [Hint _]. vm_compute in Hint. discriminate.
Defined.

(** C5, as stated, fails on four backslashes: normalizing gives two,
    and normalizing that already normalized value gives one.  The
    backslash step alone behaves the same way. *)
Lemma C5_four_backslashes_not_idempotent :
  normalize (backslashes 4) = backslashes 2 ∧
  normalize (backslashes 2) = backslashes 1 ∧
  normalize (normalize (backslashes 4)) ≠ normalize (backslashes 4) ∧
  Interface.process_out_data (Interface.process_out_data (backslashes 4))
    ≠ Interface.process_out_data (backslashes 4).
Proof.
  split; [reflexivity|]. split; [reflexivity|]. split; discriminate.
Qed.

(** C5, amended. Taking out the quote characters is idempotent; and the
    whole normalization, applied to a value that is already normalized,
    returns that value exactly when it holds no two adjacent
    backslashes (otherwise it collapses once more). *)
Theorem C5_idempotent_without_backslash_pair :
  (∀ s, ConstantVisitor.strip (ConstantVisitor.strip s) = ConstantVisitor.strip s) ∧
  (∀ s, normalize (normalize s) = normalize s ↔
        has_backslash_pair (normalize s) = false) ∧
  (∀ s, Interface.process_out_data (Interface.process_out_data s)
          = Interface.process_out_data s ↔
        has_backslash_pair (Interface.process_out_data s) = false).
Proof.
  split; [apply strip_idempotent|]. split.
  - intros s. rewrite normalize_normalize. apply collapse_fixed_iff.
  - intros s. apply collapse_fixed_iff.
Qed.

Lemma C5_idempotent_without_backslash_pair_witness :
  normalize (normalize (quoted ("a" +:+ backslashes 2 +:+ "b")))
  = normalize (quoted ("a" +:+ backslashes 2 +:+ "b")).
Proof.
  destruct C5_idempotent_without_backslash_pair as (_ & Hnorm & _).
  apply Hnorm. vm_compute. reflexivity.
Defined.

(** C6, as stated, fails on a literal holding an escaped backslash: for
    the text quote, a, backslash, backslash, b, quote the value kept still
    has both backslashes, where the claim has them collapsed to one. *)
Lemma C6_kept_value_keeps_backslash_pair :
  let text := quoted ("a" +:+ backslashes 2 +:+ "b") in
  PyStr.int text = None ∧
  lists (ConstantVisitor.visit_Constant 0 text initial_state).1 !! 0%nat
    = Some ["a" +:+ backslashes 2 +:+ "b"] ∧
  spec_literal_value text = "a" +:+ backslashes 1 +:+ "b" ∧
  lists (ConstantVisitor.visit_Constant 0 text initial_state).1 !! 0%nat
    ≠ Some [spec_literal_value text].
Proof.
  split; [reflexivity|]. split; [reflexivity|]. split; [reflexivity|].
  discriminate.
Qed.

(** C6, amended. For a constant whose text fails the integer parse and
    has no quote character other than its wrapping pair, the value kept
    is the text with the wrapping quotes removed and its backslashes
    left as they are; a text that is empty after this stripping adds
    nothing to the visitor's list. *)
Theorem C6_kept_value_is_unwrapped_text text st values l :
  lists st !! values = Some l →
  PyStr.int text = None →
  PyStr.contains PyStr.dquote (spec_unwrap text) = false →
  (ConstantVisitor.visit_Constant values text st).2 = inr tt ∧
  lists (ConstantVisitor.visit_Constant values text st).1 !! values
  = Some (if PyStr.truthy (spec_unwrap text) then l ++ [spec_unwrap text] else l).
Proof.
  intros Hl Hint Hq. rewrite visit_Constant_eq. split; [done|].
  unfold kept, set_lists. cbn [fst lists].
  rewrite Hint, (strip_spec_unwrap _ Hq), list_lookup_alter_eq, Hl.
  destruct (PyStr.truthy (spec_unwrap text)); [done|].
  simpl. by rewrite app_nil_r.
Qed.

Lemma C6_kept_value_is_unwrapped_text_witness :
  let text := quoted ("a" +:+ backslashes 2 +:+ "b") in
  lists (ConstantVisitor.visit_Constant 0 text initial_state).1 !! 0%nat
    = Some ["a" +:+ backslashes 2 +:+ "b"] ∧
  lists (ConstantVisitor.visit_Constant 0 (quoted EmptyString) initial_state).1 !! 0%nat
    = Some [].
Proof.
  intros text. split.
  - apply (C6_kept_value_is_unwrapped_text text initial_state 0%nat []);
      vm_compute; reflexivity.
  - apply (C6_kept_value_is_unwrapped_text (quoted EmptyString) initial_state 0%nat []);
      vm_compute; reflexivity.
Defined.

End ConstantFilter.

(* ================================================================== *)
(** * The visitors *)
(* ================================================================== *)

Section Visitors.
Implicit Types (st : state) (values : loc) (n ast : node) (cs : list node).

(** Induction on trees, with the property available for all children. *)
Lemma node_forall_ind (P : node → Prop) :
  (∀ t v, P (Constant t v)) →
  (∀ fname cs, Forall P cs → P (FuncDef fname cs)) →
  (∀ cls cs, Forall P cs → P (Node cls cs)) →
  ∀ n, P n.
Proof.
  intros HC HF HN. fix IH 1. intros [t v|fname cs|cls cs].
  - apply HC.
  - apply HF. revert cs. fix IHcs 1. intros [|c cs].
    + constructor.
    + constructor; [apply IH | apply IHcs].
  - apply HN. revert cs. fix IHcs 1. intros [|c cs].
    + constructor.
    + constructor; [apply IH | apply IHcs].
Qed.

Lemma bind_ok {A B} (m : M A) (f : A → M B) st st' x :
  m st = (st', inr x) → (m ≫= f) st = f x st'.
Proof. unfold mbind, M_bind. by intros ->. Qed.

Lemma bind_err {A B} (m : M A) (f : A → M B) st st' e :
  m st = (st', inl e) → (m ≫= f) st = (st', inl e).
Proof. unfold mbind, M_bind. by intros ->. Qed.

Lemma for_each_nil {A} (body : A → M unit) st :
  for_each body [] st = (st, inr tt).
Proof. done. Qed.

Lemma for_each_cons {A} (body : A → M unit) x l :
  for_each body (x :: l) = (body x ;; for_each body l).
Proof. done. Qed.

Lemma alter_app_app (a b : list string) values (ls : list (list string)) :
  alter (λ l, l ++ b) values (alter (λ l, l ++ a) values ls)
  = alter (λ l, l ++ (a ++ b)) values ls.
Proof.
  rewrite list_alter_alter_eq. apply list_alter_ext; [|done].
  intros l _. simpl. by rewrite app_assoc.
Qed.

Lemma alter_app_nil values (ls : list (list string)) :
  alter (λ l, l ++ []) values ls = ls.
Proof. apply list_alter_id. intros l. apply app_nil_r. Qed.

(** [ConstantVisitor.visit] appends the node's own literals to the
    visitor's list object, and nothing else happens. *)
Lemma ConstantVisitor_visit_eq values n :
  ∀ st, ConstantVisitor.visit values n st =
        (set_lists (alter (λ l, l ++ own_literals n) values (lists st)) st, inr tt).
Proof.
  assert (∀ cs,
    Forall (λ n, ∀ st, ConstantVisitor.visit values n st =
      (set_lists (alter (λ l, l ++ own_literals n) values (lists st)) st, inr tt)) cs →
    ∀ st, for_each (ConstantVisitor.visit values) cs st =
      (set_lists (alter (λ l, l ++ (cs ≫= own_literals)) values (lists st)) st, inr tt))
    as Hchildren.
  { induction 1 as [|c cs Hc _ IH]; intros st.
    - rewrite for_each_nil. simpl. by rewrite alter_app_nil, set_lists_id.
    - rewrite for_each_cons, (bind_ok _ _ _ _ _ (Hc st)), IH.
      destruct st. unfold set_lists. simpl. by rewrite alter_app_app. }
  induction n as [t v|fname cs IH|cls cs IH] using node_forall_ind; intros st.
  - apply visit_Constant_eq.
  - by apply Hchildren.
  - by apply Hchildren.
Qed.

(** [FuncDefVisitor.visit] records the tree's function definitions. *)
Lemma FuncDefVisitor_visit_eq n :
  ∀ st, FuncDefVisitor.visit n st =
        (set_func_visitor_nodes (func_visitor_nodes st ++ func_defs n) st, inr tt).
Proof.
  induction n as [t v|fname cs IH|cls cs IH] using node_forall_ind; intros st.
  - simpl. destruct st. unfold set_func_visitor_nodes. simpl. by rewrite app_nil_r.
  - done.
  - simpl. revert st. induction IH as [|c cs Hc _ IH]; intros st.
    + destruct st. unfold set_func_visitor_nodes. simpl. by rewrite app_nil_r.
    + rewrite for_each_cons, (bind_ok _ _ _ _ _ (Hc st)), IH.
      destruct st. unfold set_func_visitor_nodes. simpl. by rewrite app_assoc.
Qed.

Lemma func_defs_are_FuncDef n :
  Forall (λ f, is_Some (decl_name_of f)) (func_defs n).
Proof.
  induction n as [t v|fname cs IH|cls cs IH] using node_forall_ind.
  - constructor.
  - by repeat constructor.
  - simpl. induction IH as [|c cs Hc _ IH]; [constructor|].
    simpl. by apply Forall_app.
Qed.

Lemma check_num_ast_functions_eq (nodes : list node) st :
  Forall (λ f, is_Some (decl_name_of f)) nodes →
  Verifier.check_num_ast_functions nodes st =
  (st, match nodes with [] => inl NoFunctionsFoundError | _ => inr tt end).
Proof.
  intros Hall. unfold Verifier.check_num_ast_functions.
  erewrite bind_ok.
  - by destruct nodes.
  - clear -Hall. induction Hall as [|f nodes [fname Hf] _ IH]; [done|].
    rewrite for_each_cons. erewrite bind_ok; [apply IH|]. by rewrite Hf.
Qed.

End Visitors.

(* ================================================================== *)
(** * The builder pass: [AstParser.build_function_str_pairs] *)
(* ================================================================== *)

Section Builder.
Implicit Types (st : state) (f ast : node) (fl : list node).

Lemma associations_FuncDef f fname :
  decl_name_of f = Some fname →
  associations f = (λ s, (fname, s)) <$> own_literals f.
Proof. destruct f; simpl; by intros [= ->]. Qed.

Lemma add_strings_eq f fname strs st :
  decl_name_of f = Some fname →
  for_each (λ function_str,
    match decl_name_of f with
    | Some fname => Record.add_func_str_to_list fname function_str
    | None => raise AttributeError
    end) strs st
  = (set_tpl_list (tpl_list st ++ ((λ s, (fname, s)) <$> strs)) st, inr tt).
Proof.
  intros ->. revert st. induction strs as [|s strs IH]; intros st.
  - destruct st. unfold set_tpl_list. simpl. by rewrite app_nil_r.
  - rewrite for_each_cons. erewrite bind_ok; [|done]. rewrite IH.
    destruct st. unfold set_tpl_list. simpl. by rewrite <- app_assoc.
Qed.

(** The loop over the functions.  On entry the local variable
    [function_strings] either is the visitor's own list object, still
    holding what the previous function left in it, or it is some other
    list while the visitor's list is empty (the first round).  Either
    way [clear()] leaves the visitor's list empty before the visit, so
    each function contributes its own literals and nothing else. *)
Lemma function_loop_spec fl :
  Forall (λ f, is_Some (decl_name_of f)) fl →
  ∀ st function_strings,
    (const_visitor_values st < length (lists st))%nat →
    function_strings = const_visitor_values st
      ∨ lists st !! const_visitor_values st = Some [] →
    ∃ st', AstParser.function_loop fl function_strings st = (st', inr tt) ∧
           tpl_list st' = tpl_list st ++ (fl ≫= associations) ∧
           const_visitor_values st' = const_visitor_values st ∧
           length (lists st') = length (lists st) ∧
           str_func_dict st' = str_func_dict st ∧
           requested st' = requested st ∧
           func_visitor_nodes st' = func_visitor_nodes st.
Proof.
  induction 1 as [|f fl [fname Hf] _ IH]; intros st fs Hv Hfs.
  - exists st. simpl. by rewrite app_nil_r.
  - destruct st as [tpl d ls v nodes req jd]. simpl in Hv, Hfs.
    assert (alter (λ _, []) fs ls !! v = Some []) as Hempty.
    { destruct Hfs as [->|Hl].
      - rewrite list_lookup_alter_eq.
        by destruct (lookup_lt_is_Some_2 _ _ Hv) as [x ->].
      - destruct (decide (fs = v)) as [->|Hne].
        + by rewrite list_lookup_alter_eq, Hl.
        + by rewrite list_lookup_alter_ne. }
    cbn [AstParser.function_loop].
    unfold list_clear, AstParser.locate_func_strings, list_read.
    unfold mbind at 1, M_bind at 1, modify at 1. cbn [set_lists lists tpl_list
      str_func_dict const_visitor_values func_visitor_nodes requested].
    unfold mbind at 1, M_bind at 1.
    unfold mbind at 1, M_bind at 1, gets at 1.
    cbn [const_visitor_values].
    unfold mbind at 1, M_bind at 1. rewrite ConstantVisitor_visit_eq.
    unfold gets at 1. cbn [set_lists lists tpl_list
      str_func_dict const_visitor_values func_visitor_nodes requested].
    unfold mbind at 1, M_bind at 1, gets at 1.
    cbn [set_lists lists tpl_list
      str_func_dict const_visitor_values func_visitor_nodes requested].
    rewrite list_lookup_alter_eq, Hempty. cbn [fmap option_fmap option_map default app].
    unfold mbind at 1, M_bind at 1. rewrite (add_strings_eq _ _ _ _ Hf).
    cbn [set_tpl_list lists tpl_list
      str_func_dict const_visitor_values func_visitor_nodes requested].
    edestruct (IH (State (tpl ++ ((λ s, (fname, s)) <$> own_literals f)) d
                     (alter (λ l, l ++ own_literals f) v (alter (λ _, []) fs ls))
                     v nodes req jd) v) as (st' & Hrun & Htpl & Hcv & Hlen & Hd & Hreq & Hn).
    { simpl. by rewrite !length_alter. }
    { by left. }
    exists st'. split; [done|]. simpl in *.
    rewrite Htpl, Hlen, !length_alter, (associations_FuncDef _ _ Hf), <- app_assoc.
    done.
Qed.

Lemma locate_functions_eq ast st :
  func_visitor_nodes st = [] →
  AstParser.locate_functions ast st =
  (set_func_visitor_nodes (func_defs ast) st,
   match func_defs ast with
   | [] => inl NoFunctionsFoundError
   | _ => inr (func_defs ast)
   end).
Proof.
  intros Hn. unfold AstParser.locate_functions.
  erewrite bind_ok by apply FuncDefVisitor_visit_eq.
  rewrite Hn, app_nil_l.
  erewrite bind_ok by done. cbn [func_visitor_nodes set_func_visitor_nodes].
  unfold mbind, M_bind.
  rewrite check_num_ast_functions_eq by apply func_defs_are_FuncDef.
  by destruct (func_defs ast).
Qed.

Lemma locate_functions_ok ast st :
  func_visitor_nodes st = [] → func_defs ast ≠ [] →
  AstParser.locate_functions ast st =
  (set_func_visitor_nodes (func_defs ast) st, inr (func_defs ast)).
Proof.
  intros Hn Hsome. rewrite locate_functions_eq by done.
  by destruct (func_defs ast).
Qed.

Lemma initial_state_fresh : parser_fresh initial_state.
Proof. by split. Qed.

(** A tree without function definitions: [check_num_ast_functions]
    raises, and neither the Candidate List nor the Output Mapping has
    been touched. *)
Lemma build_no_functions ast st :
  parser_fresh st → func_defs ast = [] →
  ∃ st', AstParser.build_function_str_pairs ast st = (st', inl NoFunctionsFoundError) ∧
         tpl_list st' = tpl_list st ∧ str_func_dict st' = str_func_dict st ∧
         requested st' = requested st.
Proof.
  intros [_ Hn] Hnone. unfold AstParser.build_function_str_pairs.
  erewrite bind_err; [|by rewrite locate_functions_eq, Hnone].
  by eexists.
Qed.

(** One builder pass over a tree that defines a function. *)
Lemma build_spec ast st :
  parser_fresh st → func_defs ast ≠ [] →
  ∃ st', AstParser.build_function_str_pairs ast st = (st', inr tt) ∧
         tpl_list st' = Record.sort_by_func (tpl_list st ++ tree_associations ast) ∧
         str_func_dict st' = str_func_dict st ∧
         requested st' = requested st ∧
         parser_fresh st'.
Proof.
  intros [Hv Hn] Hsome. unfold AstParser.build_function_str_pairs.
  erewrite bind_ok; cycle 1.
  { by apply locate_functions_ok. }
  destruct st as [tpl d ls v nodes req jd]. simpl in Hv, Hn. subst nodes.
  unfold list_new at 1. unfold mbind at 1, M_bind at 1.
  cbn [set_func_visitor_nodes set_lists lists tpl_list
      str_func_dict const_visitor_values func_visitor_nodes requested].
  edestruct (function_loop_spec (func_defs ast) (func_defs_are_FuncDef ast)
               (State tpl d (ls ++ [[]]) v (func_defs ast) req jd) (length ls))
    as (st1 & Hrun & Htpl & Hcv & Hlen & Hd & Hreq & Hnodes).
  { simpl. rewrite length_app. apply lookup_lt_Some in Hv. lia. }
  { right. simpl. by rewrite lookup_app_l_Some with (x := []). }
  erewrite bind_ok by apply Hrun.
  destruct st1 as [tpl1 d1 ls1 v1 nodes1 req1 jd1]. simpl in *. subst.
  eexists. split; [reflexivity|]. simpl. split; [done|].
  split; [done|]. split; [done|]. split; [|done]. simpl.
  by apply list_lookup_middle.
Qed.

End Builder.

(* ================================================================== *)
(** * The run: [Core.process_files] *)
(* ================================================================== *)

Section Run.
Implicit Types (st : state) (e : env) (files : list file_io).

Lemma process_ast_ok e ast st :
  parser_fresh st → AstParser.MIN_BYTES <= getsizeof e ast → func_defs ast ≠ [] →
  ∃ st', AstParser.process_ast e ast st = (st', inr tt) ∧
         tpl_list st' = Record.sort_by_func (tpl_list st ++ tree_associations ast) ∧
         str_func_dict st' = str_func_dict st ∧
         requested st' = requested st ∧
         parser_fresh st'.
Proof.
  intros Hfresh Hsize Hsome. unfold AstParser.process_ast.
  apply Z.ltb_ge in Hsize. rewrite Hsize.
  erewrite bind_ok by done. by apply build_spec.
Qed.

Lemma load_new_ast_ok e path size ast st :
  path ≠ EmptyString → path_getsize e path = Some size →
  parse_file e path = Some ast →
  Interface.load_new_ast e path st = (set_requested (requested st ++ [path]) st, inr ast).
Proof.
  intros Hpath Hstat Hparse. unfold Interface.load_new_ast.
  apply truthy_ne in Hpath. rewrite Hpath, Hstat.
  erewrite bind_ok by done. by rewrite Hparse.
Qed.

Lemma trees_cons e f files ast :
  parse_file e (name f) = Some ast → trees e (f :: files) = ast :: trees e files.
Proof. unfold trees. simpl. by intros ->. Qed.

(** The loop over the files of a run: every file is requested from the
    tree producer, in order, and the Candidate List ends up a
    permutation of what it held plus the Associations of all trees. *)
Lemma files_loop_spec e files :
  Forall (file_ok e) files →
  ∀ st, parser_fresh st →
    ∃ st', for_each (λ f_str,
             ast ← Interface.load_new_ast e (name f_str);
             AstParser.process_ast e ast) files st = (st', inr tt) ∧
           tpl_list st' ≡ₚ tpl_list st ++ run_associations e files ∧
           str_func_dict st' = str_func_dict st ∧
           requested st' = requested st ++ (name <$> files) ∧
           parser_fresh st'.
Proof.
  induction 1 as [|f files (Hname & [size Hstat] & ast & Hparse & Hsize & Hsome) _ IH];
    intros st Hfresh.
  - exists st. unfold run_associations. simpl. by rewrite !app_nil_r.
  - rewrite for_each_cons.
    destruct (process_ast_ok e ast (set_requested (requested st ++ [name f]) st))
      as (st1 & Hrun1 & Htpl1 & Hd1 & Hreq1 & Hfresh1); [by destruct st|done..|].
    destruct (IH st1 Hfresh1) as (st' & Hrun & Htpl & Hd & Hreq & Hfresh').
    exists st'. split.
    { erewrite bind_ok; [apply Hrun|].
      erewrite bind_ok by by eapply load_new_ast_ok. apply Hrun1. }
    split.
    { rewrite Htpl, Htpl1, sort_by_func_Permutation.
      unfold run_associations. rewrite (trees_cons _ _ _ _ Hparse).
      destruct st. simpl. by rewrite <- app_assoc. }
    split; [by rewrite Hd, Hd1; destruct st|].
    split; [|done].
    rewrite Hreq, Hreq1. destruct st. simpl. by rewrite <- app_assoc.
Qed.

(** A whole run over files the pipeline gets through: it completes, and
    the Output Mapping is the old one overridden by the reverse mapping
    of the literals that occur exactly once among all Associations. *)
Lemma process_files_spec e files st :
  files ≠ [] → Forall (file_ok e) files → parser_fresh st →
  ∃ st', Core.process_files e files st = (st', inr tt) ∧
         requested st' = requested st ++ (name <$> files) ∧
         (∀ key fn,
            Record.count key (Record.strings_of (tpl_list st ++ run_associations e files)) = 1%nat →
            (fn, key) ∈ tpl_list st ++ run_associations e files →
            str_func_dict st' !! key = Some fn) ∧
         (∀ key,
            Record.count key (Record.strings_of (tpl_list st ++ run_associations e files)) ≠ 1%nat →
            str_func_dict st' !! key = str_func_dict st !! key).
Proof.
  intros Hne Hok Hfresh.
  destruct (files_loop_spec e files Hok st Hfresh)
    as (st1 & Hrun & Htpl & Hd & Hreq & _).
  exists (Record.integrate_list_to_dict st1).1. split.
  { unfold Core.process_files. destruct files as [|f files]; [done|].
    erewrite bind_ok by apply Hrun. by rewrite integrate_eq. }
  split; [by rewrite integrate_eq|].
  assert (∀ key, Record.count key (Record.strings_of (tpl_list st1)) =
                 Record.count key (Record.strings_of (tpl_list st ++ run_associations e files)))
    as Hcount.
  { intros key. apply count_Permutation. unfold Record.strings_of. by rewrite Htpl. }
  split.
  - intros key fn Hc Hin. rewrite integrate_lookup.
    rewrite <- Hcount in Hc. rewrite <- Htpl in Hin.
    by rewrite (proj2 (reverse_dict_lookup _ key fn) (conj Hc Hin)).
  - intros key Hc. rewrite integrate_lookup, Hd.
    rewrite <- Hcount in Hc.
    by rewrite (proj2 (reverse_dict_lookup_None _ key) Hc).
Qed.

End Run.

(* ================================================================== *)
(** * The claims about the builder pass and the run *)
(* ================================================================== *)

(** Discharges [file_ok] for a file of a concrete environment. *)
Ltac example_file_ok :=
  split; [discriminate|];
  split; [eexists; reflexivity|];
  eexists; split; [reflexivity|];
  split; [vm_compute; discriminate | discriminate].

Section PipelineClaims.
Implicit Types (st : state) (e : env) (files : list file_io).

(** C1. One builder pass over a tree that defines functions, started
    with the parser as [__init__] leaves it: the pass completes, and the
    Associations it adds to the Candidate List are, function after
    function in traversal order, each function's name paired with the
    literal values found inside that function's own body and with
    nothing else (the list is then sorted by function name).  So every
    Association of the list afterwards either was there before or pairs
    a function's name with one of its own literals.  The parser is left
    as [__init__] leaves it again, ready for the next file. *)
Theorem C1_function_gets_only_own_literals ast st :
  parser_fresh st → func_defs ast ≠ [] →
  ∃ st', AstParser.build_function_str_pairs ast st = (st', inr tt) ∧
         tpl_list st' =
           Record.sort_by_func (tpl_list st ++ (func_defs ast ≫= associations)) ∧
         (∀ fname s, (fname, s) ∈ tpl_list st' →
            (fname, s) ∈ tpl_list st ∨
            ∃ f, f ∈ func_defs ast ∧ decl_name_of f = Some fname ∧
                 s ∈ own_literals f) ∧
         parser_fresh st'.
Proof.
  intros Hfresh Hsome.
  destruct (build_spec ast st Hfresh Hsome) as (st' & Hrun & Htpl & _ & _ & Hfresh').
  exists st'. split; [done|]. split; [done|]. split; [|done].
  intros fname s Hin. rewrite Htpl, sort_by_func_Permutation in Hin.
  apply elem_of_app in Hin as [Hin|Hin]; [by left|]. right.
  apply list_elem_of_bind in Hin as (f & Hin & Hf). exists f. split; [done|].
  pose proof (func_defs_are_FuncDef ast) as Hall.
  rewrite Forall_forall in Hall. destruct (Hall f Hf) as [fname' Hname].
  rewrite (associations_FuncDef _ _ Hname) in Hin.
  by apply list_elem_of_fmap in Hin as (s' & [= -> ->] & Hs).
Qed.

Lemma C1_function_gets_only_own_literals_witness :
  parser_fresh initial_state ∧ func_defs example_tree ≠ [] ∧
  ∃ st', AstParser.build_function_str_pairs example_tree initial_state = (st', inr tt) ∧
         tpl_list st' = [("f1", "shared"); ("f1", "only_f1"); ("f2", "shared")].
Proof.
  split; [by split|]. split; [discriminate|].
  destruct (C1_function_gets_only_own_literals example_tree initial_state)
    as (st' & Hrun & Htpl & _); [by split | discriminate |].
  exists st'. split; [exact Hrun|]. rewrite Htpl. vm_compute. reflexivity.
Defined.

Lemma count_two_associations (l : list (string * string)) fn1 fn2 s :
  fn1 ≠ fn2 → (fn1, s) ∈ l → (fn2, s) ∈ l →
  (1 < Record.count s (Record.strings_of l))%nat.
Proof.
  intros Hne H1 H2. apply list_elem_of_split in H1 as (l1 & l2 & ->).
  unfold Record.strings_of. rewrite fmap_app, fmap_cons, count_app, count_cons.
  simpl. rewrite decide_True by done.
  apply elem_of_app in H2 as [H2|H2].
  - assert (0 < Record.count s l1.*2)%nat; [|lia].
    apply count_pos_elem_of, list_elem_of_fmap. by exists (fn2, s).
  - apply elem_of_cons in H2 as [[= ?]|H2]; [done|].
    assert (0 < Record.count s l2.*2)%nat; [|lia].
    apply count_pos_elem_of, list_elem_of_fmap. by exists (fn2, s).
Qed.

(** C2, as stated, fails when [f1] uses "only_f1" more than once.  In
    the run over the two example files with "only_f1" written twice in
    the body of [f1], both functions contain "shared", [f1] contains
    "only_f1" and no other literal occurs; the run completes, but
    [strings.count] finds "only_f1" twice in the Candidate List, so it
    is removed like "shared" and the Output Mapping stays empty. *)
Lemma C2_only_f1_used_twice_is_dropped :
  Forall (file_ok example_env_twice) example_files ∧
  run_associations example_env_twice example_files
    = [("f1", "shared"); ("f1", "only_f1"); ("f1", "only_f1"); ("f2", "shared")] ∧
  ∃ st', Core.process_files example_env_twice example_files initial_state = (st', inr tt) ∧
         tpl_list st' = [] ∧
         str_func_dict st' !! "only_f1" = None ∧
         str_func_dict st' = ∅.
Proof.
  split; [repeat (constructor; [example_file_ok|]); constructor|].
  split; [vm_compute; reflexivity|].
  eexists. split; [vm_compute; reflexivity|]. done.
Qed.

(** C2. A run over files the pipeline gets through, in which [f1] and
    [f2] each contain the literal "shared", [f1] contains the literal
    "only_f1" exactly once (the run's Associations hold it once), and no
    other literal occurs anywhere: the run completes with an Output
    Mapping that maps "only_f1" to "f1", has no key "shared", and in
    fact has no other entry. *)
Theorem C2_shared_excluded_only_f1_kept e files :
  files ≠ [] → Forall (file_ok e) files →
  ("f1", "shared") ∈ run_associations e files →
  ("f2", "shared") ∈ run_associations e files →
  ("f1", "only_f1") ∈ run_associations e files →
  Record.count "only_f1" (Record.strings_of (run_associations e files)) = 1%nat →
  (∀ fn s, (fn, s) ∈ run_associations e files → s = "shared" ∨ s = "only_f1") →
  ∃ st', Core.process_files e files initial_state = (st', inr tt) ∧
         str_func_dict st' !! "only_f1" = Some "f1" ∧
         str_func_dict st' !! "shared" = None ∧
         str_func_dict st' = {[ "only_f1" := "f1" ]}.
Proof.
  intros Hne Hok Hs1 Hs2 Ho Hcount Honly.
  destruct (process_files_spec e files initial_state Hne Hok initial_state_fresh)
    as (st' & Hrun & _ & Hnew & Hold).
  change (tpl_list initial_state ++ run_associations e files)
    with (run_associations e files) in Hnew, Hold.
  assert (str_func_dict st' !! "only_f1" = Some "f1") as Hk by by apply Hnew.
  assert (∀ key, key ≠ "only_f1" → str_func_dict st' !! key = None) as Hrest.
  { intros key Hkey. rewrite Hold; [done|].
    destruct (decide (key = "shared")) as [->|Hkey'].
    - assert ("f1" ≠ "f2") as Hfn by done.
      pose proof (count_two_associations _ _ _ _ Hfn Hs1 Hs2). lia.
    - intros Hc.
      assert (key ∈ Record.strings_of (run_associations e files)) as Hin
        by (apply count_pos_elem_of; lia).
      apply list_elem_of_fmap in Hin as ([fn s] & -> & Hin).
      by destruct (Honly _ _ Hin). }
  exists st'. split; [done|]. split; [done|]. split; [by apply Hrest|].
  apply map_eq. intros key. destruct (decide (key = "only_f1")) as [->|Hkey].
  - by rewrite lookup_singleton_eq.
  - by rewrite lookup_singleton_ne, Hrest.
Qed.

Lemma C2_shared_excluded_only_f1_kept_witness :
  ∃ st', Core.process_files example_env example_files initial_state = (st', inr tt) ∧
         str_func_dict st' !! "only_f1" = Some "f1" ∧
         str_func_dict st' !! "shared" = None ∧
         str_func_dict st' = {[ "only_f1" := "f1" ]}.
Proof.
  apply (C2_shared_excluded_only_f1_kept example_env example_files).
  - discriminate.
  - repeat (constructor; [example_file_ok|]). constructor.
  - vm_compute. apply list_elem_of_here.
  - vm_compute. do 2 apply list_elem_of_further. apply list_elem_of_here.
  - vm_compute. apply list_elem_of_further, list_elem_of_here.
  - vm_compute. reflexivity.
  - intros fn s Hin. vm_compute in Hin.
    apply elem_of_cons in Hin as [[= -> ->]|Hin]; [by left|].
    apply elem_of_cons in Hin as [[= -> ->]|Hin]; [by right|].
    apply elem_of_cons in Hin as [[= -> ->]|Hin]; [by left|].
    by apply elem_of_nil in Hin.
Defined.

(** C9. With no input file, [process_files] raises
    [NoFilesSpecifiedError] and the state is untouched: no tree has been
    requested from the producer and the Candidate List and the Output
    Mapping are as they were. *)
Theorem C9_no_files_raises_before_any_tree e st :
  Core.process_files e [] st = (st, inl NoFilesSpecifiedError) ∧
  requested (Core.process_files e [] st).1 = requested st ∧
  tpl_list (Core.process_files e [] st).1 = tpl_list st ∧
  str_func_dict (Core.process_files e [] st).1 = str_func_dict st.
Proof. done. Qed.

End PipelineClaims.

(* ================================================================== *)
(** * Further properties of [Record] *)
(* ================================================================== *)

Section SortFacts.
Implicit Types (tpl l : list (string * string)) (x y : string * string) (st : state).

Lemma leb_refl s : String.leb s s = true.
Proof. by destruct (String.leb_total s s). Qed.

Lemma insert_by_func_HdRel z x l :
  func_le z x → HdRel func_le z l → HdRel func_le z (Record.insert_by_func x l).
Proof.
  intros Hzx Hzl. destruct l as [|y l]; simpl; [by constructor|].
  destruct (String.leb x.1 y.1); constructor; [done|]. by inversion Hzl.
Qed.

Lemma insert_by_func_Sorted x l :
  Sorted func_le l → Sorted func_le (Record.insert_by_func x l).
Proof.
  induction 1 as [|y l Hl IH Hhd]; simpl; [by repeat constructor|].
  destruct (String.leb x.1 y.1) eqn:Hxy.
  - constructor; [by constructor|]. by constructor.
  - constructor; [done|]. apply insert_by_func_HdRel; [|done].
    unfold func_le. destruct (String.leb_total x.1 y.1) as [Hle|Hle]; [congruence|done].
Qed.

Lemma sort_by_func_Sorted l : Sorted func_le (Record.sort_by_func l).
Proof.
  induction l as [|x l IH]; simpl; [constructor|]. by apply insert_by_func_Sorted.
Qed.

Lemma insert_by_func_filter fn x l :
  filter (λ p, p.1 = fn) (Record.insert_by_func x l) = filter (λ p, p.1 = fn) (x :: l).
Proof.
  induction l as [|y l IH]; simpl; [done|].
  destruct (String.leb x.1 y.1) eqn:Hxy; [done|].
  rewrite (filter_cons _ y), IH, !(filter_cons _ x), (filter_cons _ y).
  destruct (decide (y.1 = fn)) as [Hy|Hy], (decide (x.1 = fn)) as [Hx|Hx]; try done.
  rewrite Hx, <- Hy, leb_refl in Hxy. done.
Qed.

Lemma sort_by_func_filter fn l :
  filter (λ p, p.1 = fn) (Record.sort_by_func l) = filter (λ p, p.1 = fn) l.
Proof.
  induction l as [|x l IH]; simpl; [done|].
  by rewrite insert_by_func_filter, !filter_cons, IH.
Qed.

Lemma sort_by_func_sorted_id l : Sorted func_le l → Record.sort_by_func l = l.
Proof.
  induction 1 as [|x l Hl IH Hhd]; simpl; [done|]. rewrite IH.
  destruct Hhd as [|y l Hxy]; simpl; [done|]. unfold func_le in Hxy. by rewrite Hxy.
Qed.

Lemma survivors_NoDup_id tpl : NoDup tpl.*2 → survivors tpl = tpl.
Proof.
  intros Hnd. unfold survivors.
  rewrite (filter_ext_elem _ (λ _, True) tpl).
  - induction tpl as [|i tpl IH]; [done|]. rewrite filter_cons_True by done.
    f_equal. apply IH. by inversion Hnd.
  - intros i Hi. split; [done|]. intros _. apply count_NoDup; [done|].
    apply list_elem_of_fmap. by exists i.
Qed.

(** X1. [sort_tmp_list] never raises and changes the Candidate List only:
    afterwards it is in ascending order of function name, holds the same
    Associations, and the Associations of one function stand in the
    order they had before. *)
Theorem sort_tmp_list_sorted_stable st :
  let st' := (Record.sort_tmp_list st).1 in
  (Record.sort_tmp_list st).2 = inr tt ∧
  Sorted func_le (tpl_list st') ∧
  tpl_list st' ≡ₚ tpl_list st ∧
  (∀ fn, filter (λ p, p.1 = fn) (tpl_list st') = filter (λ p, p.1 = fn) (tpl_list st)) ∧
  st' = set_tpl_list (tpl_list st') st.
Proof.
  simpl. split; [done|]. split; [apply sort_by_func_Sorted|].
  split; [apply sort_by_func_Permutation|]. split; [|done].
  intros fn. apply sort_by_func_filter.
Qed.

(** X2. Adjudicating twice in a row is adjudicating once: a second
    [integrate_list_to_dict] with nothing appended in between leaves the
    Candidate List, the Output Mapping and everything else as the first
    left them. *)
Theorem integrate_twice_is_once st :
  Record.integrate_list_to_dict (Record.integrate_list_to_dict st).1
  = Record.integrate_list_to_dict st.
Proof.
  rewrite !integrate_eq. cbn [fst]. destruct st as [tpl d ls v nodes req jd].
  unfold set_str_func_dict, set_tpl_list, Record.update.
  cbn [tpl_list str_func_dict lists const_visitor_values func_visitor_nodes requested].
  assert (Record.sort_by_func (survivors (Record.sort_by_func (survivors tpl)))
          = Record.sort_by_func (survivors tpl)) as ->.
  { rewrite survivors_NoDup_id.
    - apply sort_by_func_sorted_id, sort_by_func_Sorted.
    - rewrite sort_by_func_Permutation. apply survivors_strings_NoDup. }
  by rewrite (assoc_L (∪)), (idemp_L (∪)).
Qed.

End SortFacts.

(* ================================================================== *)
(** * Further properties of the run *)
(* ================================================================== *)

Section RunFacts.
Implicit Types (st : state) (e : env) (files : list file_io) (f : file_io).

Lemma file_ok_iff e f : file_ok e f ↔ file_failure e f = None.
Proof.
  unfold file_ok, file_failure. rewrite <- truthy_ne. split.
  - intros (-> & [size ->] & ast & -> & Hsize & Hsome).
    apply Z.ltb_ge in Hsize. rewrite Hsize. by destruct (func_defs ast).
  - destruct (PyStr.truthy (name f)); [|done].
    destruct (path_getsize e (name f)) as [size|]; [|done].
    destruct (parse_file e (name f)) as [ast|]; [|done].
    destruct (getsizeof e ast <? AstParser.MIN_BYTES) eqn:Hsize; [done|].
    destruct (func_defs ast) eqn:Hfd; [done|]. intros _.
    split; [done|]. split; [by eexists|].
    exists ast. apply Z.ltb_ge in Hsize. by rewrite Hfd.
Qed.

Lemma first_failure_None e files :
  first_failure e files = None ↔ Forall (file_ok e) files.
Proof.
  induction files as [|f files IH]; simpl; [by split; [constructor|]|].
  rewrite Forall_cons, file_ok_iff, <- IH.
  destruct (file_failure e f); split; try done; by intros [? ?].
Qed.

Lemma ok_prefix_ok e files : Forall (file_ok e) (ok_prefix e files).
Proof.
  induction files as [|f files IH]; simpl; [constructor|].
  destruct (file_failure e f) eqn:Hf; [constructor|].
  constructor; [by apply file_ok_iff|done].
Qed.

Lemma run_associations_cons e f files ast :
  parse_file e (name f) = Some ast →
  run_associations e (f :: files) = tree_associations ast ++ run_associations e files.
Proof. intros Hp. unfold run_associations. by rewrite (trees_cons _ _ _ _ Hp). Qed.

(** The file at which one round of the loop stops. *)
Lemma file_round_failure e f err st :
  parser_fresh st → file_failure e f = Some err →
  ∃ st', (ast ← Interface.load_new_ast e (name f); AstParser.process_ast e ast) st
           = (st', inl err) ∧
         tpl_list st' = tpl_list st ∧
         str_func_dict st' = str_func_dict st ∧
         requested st' = requested st ++ (if handed_to_producer e f then [name f] else []).
Proof.
  intros Hfresh. unfold file_failure, Interface.load_new_ast, handed_to_producer.
  destruct (PyStr.truthy (name f)) eqn:Hname; cycle 1.
  { intros [= <-]. exists st. cbn [andb]. rewrite app_nil_r. by erewrite bind_err. }
  destruct (path_getsize e (name f)) as [size|] eqn:Hstat; cycle 1.
  { intros [= <-]. exists st. rewrite bool_decide_eq_false_2 by by intros [? ?].
    cbn [andb]. rewrite app_nil_r. by erewrite bind_err. }
  rewrite bool_decide_eq_true_2 by by eexists. cbn [andb].
  destruct (parse_file e (name f)) as [ast|] eqn:Hparse; cycle 1.
  { intros [= <-]. eexists. split.
    - erewrite bind_err; [reflexivity|]. erewrite bind_ok by reflexivity.
      reflexivity.
    - by destruct st. }
  assert ((modify (λ s, set_requested (requested s ++ [name f]) s) ;; mret ast) st
          = (set_requested (requested st ++ [name f]) st, inr ast)) as Hload
    by by erewrite bind_ok.
  unfold AstParser.process_ast.
  destruct (getsizeof e ast <? AstParser.MIN_BYTES) eqn:Hsize.
  { intros [= <-]. eexists. split.
    - erewrite bind_ok by apply Hload. rewrite Hsize.
      erewrite bind_err by reflexivity. reflexivity.
    - by destruct st. }
  destruct (func_defs ast) eqn:Hfd; [|done]. intros [= <-].
  destruct (build_no_functions ast (set_requested (requested st ++ [name f]) st))
    as (st' & Hrun & Htpl & Hd & Hreq); [by destruct st | done |].
  exists st'. split.
  - erewrite bind_ok by apply Hload. rewrite Hsize.
    erewrite bind_ok by reflexivity. apply Hrun.
  - rewrite Htpl, Hd, Hreq. by destruct st.
Qed.

(** The loop over the files up to the first file the pipeline stops at. *)
Lemma files_loop_failure e files f err :
  first_failure e files = Some (f, err) →
  ∀ st, parser_fresh st →
    ∃ st', for_each (λ f_str,
             ast ← Interface.load_new_ast e (name f_str);
             AstParser.process_ast e ast) files st = (st', inl err) ∧
           tpl_list st' ≡ₚ tpl_list st ++ run_associations e (ok_prefix e files) ∧
           str_func_dict st' = str_func_dict st ∧
           requested st' = requested st ++ (name <$> ok_prefix e files)
                             ++ (if handed_to_producer e f then [name f] else []).
Proof.
  induction files as [|f0 files IH]; [done|]. cbn [first_failure ok_prefix].
  destruct (file_failure e f0) as [err0|] eqn:Hf0.
  - intros [= -> ->] st Hfresh.
    destruct (file_round_failure e f err st Hfresh Hf0) as (st' & Hrun & Htpl & Hd & Hreq).
    exists st'. split; [by rewrite for_each_cons; erewrite bind_err|].
    rewrite Htpl. unfold run_associations. simpl. by rewrite app_nil_r.
  - intros Hfirst st Hfresh.
    pose proof (proj2 (file_ok_iff e f0) Hf0)
      as (Hname & [size Hstat] & ast & Hparse & Hsize & Hsome).
    destruct (process_ast_ok e ast (set_requested (requested st ++ [name f0]) st))
      as (st1 & Hrun1 & Htpl1 & Hd1 & Hreq1 & Hfresh1); [by destruct st|done..|].
    destruct (IH Hfirst st1 Hfresh1) as (st' & Hrun & Htpl & Hd & Hreq).
    exists st'. split.
    { rewrite for_each_cons. erewrite bind_ok; [apply Hrun|].
      erewrite bind_ok by by eapply load_new_ast_ok. apply Hrun1. }
    split.
    { rewrite Htpl, Htpl1, sort_by_func_Permutation, (run_associations_cons _ _ _ _ Hparse).
      destruct st. simpl. by rewrite <- app_assoc. }
    split; [by rewrite Hd, Hd1; destruct st|].
    rewrite Hreq, Hreq1. destruct st. simpl. by rewrite <- !app_assoc.
Qed.

(** The whole of [process_files] when some file stops the pipeline. *)
Lemma process_files_failure e files f err st :
  parser_fresh st → first_failure e files = Some (f, err) →
  ∃ st', Core.process_files e files st = (st', inl err) ∧
         tpl_list st' ≡ₚ tpl_list st ++ run_associations e (ok_prefix e files) ∧
         str_func_dict st' = str_func_dict st ∧
         requested st' = requested st ++ (name <$> ok_prefix e files)
                           ++ (if handed_to_producer e f then [name f] else []).
Proof.
  intros Hfresh Hfirst.
  destruct (files_loop_failure e files f err Hfirst st Hfresh) as (st' & Hrun & Hrest).
  exists st'. split; [|done]. unfold Core.process_files.
  destruct files as [|f0 files]; [done|]. by erewrite bind_err.
Qed.

Lemma first_failure_app e pre f rest err :
  Forall (file_ok e) pre → file_failure e f = Some err →
  first_failure e (pre ++ f :: rest) = Some (f, err) ∧ ok_prefix e (pre ++ f :: rest) = pre.
Proof.
  intros Hpre Hf. induction Hpre as [|f0 pre Hf0 _ [IH1 IH2]]; simpl.
  - by rewrite Hf.
  - apply file_ok_iff in Hf0. by rewrite Hf0, IH1, IH2.
Qed.

Lemma first_failure_Some e files f err :
  first_failure e files = Some (f, err) → f ∈ files ∧ file_failure e f = Some err.
Proof.
  induction files as [|f0 files IH]; simpl; [done|].
  destruct (file_failure e f0) as [err0|] eqn:Hf0.
  - intros [= -> ->]. split; [by left|done].
  - intros Hfirst. destruct (IH Hfirst). split; [by right|done].
Qed.

(** The Output Mapping of a completed run, entry by entry. *)
Lemma process_files_lookup_iff e files :
  files ≠ [] → Forall (file_ok e) files →
  ∃ st', Core.process_files e files initial_state = (st', inr tt) ∧
         requested st' = name <$> files ∧
         ∀ key fn, str_func_dict st' !! key = Some fn ↔
           Record.count key (Record.strings_of (run_associations e files)) = 1%nat ∧
           (fn, key) ∈ run_associations e files.
Proof.
  intros Hne Hok.
  destruct (process_files_spec e files initial_state Hne Hok initial_state_fresh)
    as (st' & Hrun & Hreq & Hnew & Hold).
  change (tpl_list initial_state ++ run_associations e files)
    with (run_associations e files) in Hnew, Hold.
  exists st'. split; [done|]. split; [done|].
  intros key fn. split; [|by intros [? ?]; apply Hnew].
  intros Hlook.
  destruct (decide (Record.count key (Record.strings_of (run_associations e files)) = 1%nat))
    as [Hc|Hc]; [|by rewrite (Hold _ Hc) in Hlook].
  split; [done|].
  assert (key ∈ Record.strings_of (run_associations e files)) as Hin
    by (apply count_pos_elem_of; lia).
  apply list_elem_of_fmap in Hin as ([fn' key'] & -> & Hin).
  rewrite (Hnew _ _ Hc Hin) in Hlook. by injection Hlook as ->.
Qed.

(** X3. A run over files the pipeline gets through completes, asks the
    tree producer for each file once, in the order given, and ends with
    the Output Mapping that maps a literal to a function exactly when the
    literal occurs once among the Associations of all files together, in
    that function. *)
Theorem run_output_mapping e files :
  files ≠ [] → Forall (file_ok e) files →
  ∃ st', Core.process_files e files initial_state = (st', inr tt) ∧
         requested st' = name <$> files ∧
         (∀ key fn, str_func_dict st' !! key = Some fn ↔
            Record.count key (Record.strings_of (run_associations e files)) = 1%nat ∧
            (fn, key) ∈ run_associations e files) ∧
         (∀ key, str_func_dict st' !! key = None ↔
            Record.count key (Record.strings_of (run_associations e files)) ≠ 1%nat).
Proof.
  intros Hne Hok.
  destruct (process_files_lookup_iff e files Hne Hok) as (st' & Hrun & Hreq & Hmap).
  exists st'. split; [done|]. split; [done|]. split; [done|].
  intros key. split.
  - intros Hnone Hc.
    assert (key ∈ Record.strings_of (run_associations e files)) as Hin
      by (apply count_pos_elem_of; lia).
    apply list_elem_of_fmap in Hin as ([fn key'] & -> & Hin).
    by rewrite (proj2 (Hmap _ fn) (conj Hc Hin)) in Hnone.
  - intros Hc. destruct (str_func_dict st' !! key) as [fn|] eqn:Hlook; [|done].
    by apply Hmap in Hlook as [? _].
Qed.

Lemma example_files_ok : Forall (file_ok example_env) example_files.
Proof. repeat (constructor; [example_file_ok|]). constructor. Defined.

Lemma run_output_mapping_witness :
  ∃ st', Core.process_files example_env example_files initial_state = (st', inr tt) ∧
         requested st' = ["f1.c"; "f2.c"] ∧
         str_func_dict st' !! "only_f1" = Some "f1".
Proof.
  destruct (run_output_mapping example_env example_files)
    as (st' & Hrun & Hreq & Hmap & _); [discriminate | apply example_files_ok |].
  exists st'. split; [exact Hrun|]. split; [exact Hreq|].
  apply Hmap. split; [vm_compute; reflexivity|].
  vm_compute. apply list_elem_of_further, list_elem_of_here.
Defined.

(** X4. Started with the parser as [__init__] leaves it, [process_files]
    completes exactly when there is at least one file and every file has
    a path that [os.path.getsize] returns on, a tree from the producer,
    a tree of at least [MIN_BYTES], and a function definition in it. *)
Theorem run_completes_iff e files st :
  parser_fresh st →
  ((Core.process_files e files st).2 = inr tt ↔ files ≠ [] ∧ Forall (file_ok e) files).
Proof.
  intros Hfresh. split.
  - intros Hrun. split; [by intros ->|].
    apply first_failure_None.
    destruct (first_failure e files) as [[f err]|] eqn:Hfirst; [|done].
    destruct (process_files_failure e files f err st Hfresh Hfirst) as (st' & Hfail & _).
    by rewrite Hfail in Hrun.
  - intros [Hne Hok].
    destruct (process_files_spec e files st Hne Hok Hfresh) as (st' & Hrun & _).
    by rewrite Hrun.
Qed.

Lemma run_completes_iff_witness :
  (Core.process_files example_env example_files initial_state).2 = inr tt.
Proof.
  apply (run_completes_iff example_env example_files initial_state).
  - split; reflexivity.
  - split; [discriminate | apply example_files_ok].
Defined.

(** X5. The run stops at the first file the pipeline cannot get through
    and raises that file's exception: the files before it have been
    requested and their Associations appended; the failing file has been
    requested from the tree producer only if it has a path and
    [os.path.getsize] returned on it; no later file is requested, and the
    Output Mapping is as it was. *)
Theorem run_stops_at_first_failure e pre f rest err st :
  parser_fresh st → Forall (file_ok e) pre → file_failure e f = Some err →
  ∃ st', Core.process_files e (pre ++ f :: rest) st = (st', inl err) ∧
         requested st' = requested st ++ (name <$> pre)
                           ++ (if handed_to_producer e f then [name f] else []) ∧
         tpl_list st' ≡ₚ tpl_list st ++ run_associations e pre ∧
         str_func_dict st' = str_func_dict st.
Proof.
  intros Hfresh Hpre Hf.
  destruct (first_failure_app e pre f rest err Hpre Hf) as [Hfirst Hprefix].
  destruct (process_files_failure e _ f err st Hfresh Hfirst)
    as (st' & Hrun & Htpl & Hd & Hreq).
  rewrite Hprefix in Htpl, Hreq. by exists st'.
Qed.

Lemma run_stops_at_first_failure_witness :
  (∃ st', Core.process_files example_env
            (example_files ++ FileIO "missing.c" "r" :: example_files) initial_state
          = (st', inl OSError) ∧
          requested st' = ["f1.c"; "f2.c"] ∧
          str_func_dict st' = ∅) ∧
  (∃ st', Core.process_files example_env
            (example_files ++ FileIO "broken.c" "r" :: example_files) initial_state
          = (st', inl TreeProducerError) ∧
          requested st' = ["f1.c"; "f2.c"; "broken.c"] ∧
          str_func_dict st' = ∅).
Proof.
  split.
  - destruct (run_stops_at_first_failure example_env example_files
                (FileIO "missing.c" "r") example_files OSError initial_state)
      as (st' & Hrun & Hreq & _ & Hd);
      [split; reflexivity | apply example_files_ok | reflexivity |].
    exists st'. split; [exact Hrun|]. split; [exact Hreq | exact Hd].
  - destruct (run_stops_at_first_failure example_env example_files
                (FileIO "broken.c" "r") example_files TreeProducerError initial_state)
      as (st' & Hrun & Hreq & _ & Hd);
      [split; reflexivity | apply example_files_ok | reflexivity |].
    exists st'. split; [exact Hrun|]. split; [exact Hreq | exact Hd].
Defined.

Lemma file_failure_not_AttributeError e f : file_failure e f ≠ Some AttributeError.
Proof.
  unfold file_failure. destruct (PyStr.truthy (name f)); [|done].
  destruct (path_getsize e (name f)); [|done].
  destruct (parse_file e (name f)) as [ast|]; [|done].
  destruct (getsizeof e ast <? AstParser.MIN_BYTES); [done|].
  by destruct (func_defs ast).
Qed.

(** X6. A run that ends in an exception leaves the Output Mapping
    untouched, whichever file and whichever exception it was; and the
    exception is never [AttributeError]. *)
Theorem run_error_leaves_mapping e files st err :
  parser_fresh st →
  (Core.process_files e files st).2 = inl err →
  str_func_dict (Core.process_files e files st).1 = str_func_dict st ∧
  err ≠ AttributeError.
Proof.
  intros Hfresh Herr. destruct files as [|f0 files].
  { simpl in *. by injection Herr as <-. }
  destruct (first_failure e (f0 :: files)) as [[f err']|] eqn:Hfirst.
  - destruct (process_files_failure e _ f err' st Hfresh Hfirst)
      as (st' & Hrun & _ & Hd & _).
    pose proof (first_failure_Some _ _ _ _ Hfirst) as [_ Hf].
    rewrite Hrun in Herr |- *. cbn [fst snd] in *. injection Herr as <-.
    split; [done|]. intros ->.
    by apply file_failure_not_AttributeError in Hf.
  - apply first_failure_None in Hfirst.
    destruct (process_files_spec e (f0 :: files) st ltac:(done) Hfirst Hfresh)
      as (st' & Hrun & _).
    by rewrite Hrun in Herr.
Qed.

Lemma run_error_leaves_mapping_witness :
  str_func_dict (Core.process_files example_env [FileIO "f1.c" "r"; FileIO "" "r"]
                   (store_state [] {[ "k" := "g" ]})).1 = {[ "k" := "g" ]}.
Proof.
  destruct (run_error_leaves_mapping example_env [FileIO "f1.c" "r"; FileIO "" "r"]
              (store_state [] {[ "k" := "g" ]}) NoneFilePathError) as [Hd _].
  - split; reflexivity.
  - vm_compute. reflexivity.
  - exact Hd.
Defined.

End RunFacts.

Section RunInvariants.
Implicit Types (st : state) (e : env) (files : list file_io).

Lemma run_associations_Permutation e files1 files2 :
  files1 ≡ₚ files2 → run_associations e files1 ≡ₚ run_associations e files2.
Proof. intros Hp. unfold run_associations, trees. by rewrite Hp. Qed.

(** X7. The Output Mapping of a completed run does not depend on the
    order in which the files are given. *)
Theorem run_independent_of_file_order e files1 files2 :
  files1 ≡ₚ files2 → files1 ≠ [] → Forall (file_ok e) files1 →
  ∃ st1 st2,
    Core.process_files e files1 initial_state = (st1, inr tt) ∧
    Core.process_files e files2 initial_state = (st2, inr tt) ∧
    str_func_dict st1 = str_func_dict st2.
Proof.
  intros Hp Hne1 Hok1.
  assert (files2 ≠ []) as Hne2.
  { intros ->. by apply Permutation_nil_r in Hp. }
  assert (Forall (file_ok e) files2) as Hok2 by by rewrite <- Hp.
  destruct (process_files_lookup_iff e files1 Hne1 Hok1) as (st1 & Hrun1 & _ & Hmap1).
  destruct (process_files_lookup_iff e files2 Hne2 Hok2) as (st2 & Hrun2 & _ & Hmap2).
  exists st1, st2. split; [done|]. split; [done|].
  pose proof (run_associations_Permutation e files1 files2 Hp) as Hassoc.
  assert (∀ key fn, str_func_dict st1 !! key = Some fn ↔
                    str_func_dict st2 !! key = Some fn) as Hiff.
  { intros key fn. rewrite Hmap1, Hmap2.
    rewrite (count_Permutation key _ (Record.strings_of (run_associations e files2)))
      by (unfold Record.strings_of; by rewrite Hassoc).
    by rewrite Hassoc. }
  apply map_eq. intros key. apply option_eq. intros fn. apply Hiff.
Qed.

Lemma run_independent_of_file_order_witness :
  ∃ st1 st2,
    Core.process_files example_env example_files initial_state = (st1, inr tt) ∧
    Core.process_files example_env (reverse example_files) initial_state = (st2, inr tt) ∧
    str_func_dict st1 = str_func_dict st2.
Proof.
  apply (run_independent_of_file_order example_env example_files (reverse example_files)).
  - vm_compute. apply perm_swap.
  - discriminate.
  - apply example_files_ok.
Defined.

Lemma kept_wellformed value s :
  s ∈ kept value → s ≠ EmptyString ∧ PyStr.contains PyStr.dquote s = false.
Proof.
  unfold kept. destruct (PyStr.int value); [by intros ?%elem_of_nil|].
  destruct (PyStr.truthy (ConstantVisitor.strip value)) eqn:Ht;
    [|by intros ?%elem_of_nil].
  intros ->%list_elem_of_singleton. split; [by apply truthy_ne|apply strip_contains].
Qed.

Lemma own_literals_wellformed n s :
  s ∈ own_literals n → s ≠ EmptyString ∧ PyStr.contains PyStr.dquote s = false.
Proof.
  revert s. induction n as [t v|fname cs IH|cls cs IH] using node_forall_ind; intros s.
  - apply kept_wellformed.
  - simpl. intros (c & Hs & Hc)%list_elem_of_bind.
    rewrite Forall_forall in IH. by apply (IH c).
  - simpl. intros (c & Hs & Hc)%list_elem_of_bind.
    rewrite Forall_forall in IH. by apply (IH c).
Qed.

Lemma elem_of_run_associations e files fn s :
  (fn, s) ∈ run_associations e files →
  ∃ ast f, ast ∈ trees e files ∧ f ∈ func_defs ast ∧
           decl_name_of f = Some fn ∧ s ∈ own_literals f.
Proof.
  unfold run_associations, tree_associations.
  intros (ast & Hin & Hast)%list_elem_of_bind.
  apply list_elem_of_bind in Hin as (f & Hin & Hf).
  exists ast, f. split; [done|]. split; [done|].
  pose proof (func_defs_are_FuncDef ast) as Hall.
  rewrite Forall_forall in Hall. destruct (Hall f Hf) as [fname Hname].
  rewrite (associations_FuncDef _ _ Hname) in Hin.
  by apply list_elem_of_fmap in Hin as (s' & [= -> ->] & Hs).
Qed.

(** X8. Every entry of the Output Mapping of a completed run is backed by
    the trees: its value is the name of a function definition of one of
    the trees and its key is a literal found inside that function; the
    key is never empty and never holds a double quote. *)
Theorem run_mapping_entries_wellformed e files :
  files ≠ [] → Forall (file_ok e) files →
  ∃ st', Core.process_files e files initial_state = (st', inr tt) ∧
         ∀ key fn, str_func_dict st' !! key = Some fn →
           key ≠ EmptyString ∧ PyStr.contains PyStr.dquote key = false ∧
           ∃ ast f, ast ∈ trees e files ∧ f ∈ func_defs ast ∧
                    decl_name_of f = Some fn ∧ key ∈ own_literals f.
Proof.
  intros Hne Hok.
  destruct (process_files_lookup_iff e files Hne Hok) as (st' & Hrun & _ & Hmap).
  exists st'. split; [done|]. intros key fn Hlook.
  apply Hmap in Hlook as [_ Hin].
  apply elem_of_run_associations in Hin as (ast & f & Hast & Hf & Hname & Hs).
  destruct (own_literals_wellformed _ _ Hs) as [Hne' Hq].
  split; [done|]. split; [done|]. by exists ast, f.
Qed.

Lemma run_mapping_entries_wellformed_witness :
  ∃ st', Core.process_files example_env example_files initial_state = (st', inr tt) ∧
         str_func_dict st' !! "only_f1" = Some "f1" ∧
         ∃ ast f, ast ∈ trees example_env example_files ∧ f ∈ func_defs ast ∧
                  decl_name_of f = Some "f1" ∧ "only_f1" ∈ own_literals f.
Proof.
  destruct (run_mapping_entries_wellformed example_env example_files)
    as (st' & Hrun & Hall); [discriminate | apply example_files_ok |].
  exists st'. split; [exact Hrun|].
  assert (str_func_dict st' !! "only_f1" = Some "f1") as Hlook.
  { replace st' with (Core.process_files example_env example_files initial_state).1
      by (rewrite Hrun; reflexivity).
    vm_compute. reflexivity. }
  split; [exact Hlook|]. by destruct (Hall _ _ Hlook) as (_ & _ & Hex).
Defined.

End RunInvariants.

(* ================================================================== *)
(** * [Verifier.check_parsable] and [Verifier.check_dict_by_list] *)
(* ================================================================== *)

Section VerifierFacts.
Implicit Types (files : list file_io) (f : file_io) (keys to_remove : list string).
Implicit Types (tmp_list : list (string * string)).

Lemma check_parsable_cons f files :
  Verifier.check_parsable (f :: files) =
  if decide (mode f = "r")
  then if decide (name f = EmptyString) then inl FileLocationError
       else Verifier.check_parsable files
  else inl FilePermissionsError.
Proof.
  cbn [Verifier.check_parsable].
  destruct (String.eqb_spec (mode f) "r") as [Hm|Hm].
  - rewrite decide_True by done. cbn [negb].
    destruct (name f) eqn:Hn; [done|]. by rewrite decide_False.
  - by rewrite decide_False.
Qed.

Lemma check_parsable_ok_iff files :
  Verifier.check_parsable files = inr tt ↔
  Forall (λ f, mode f = "r" ∧ name f ≠ EmptyString) files.
Proof.
  induction files as [|f files IH]; [by split; [constructor|]|].
  rewrite check_parsable_cons, Forall_cons, <- IH.
  destruct (decide (mode f = "r")) as [Hm|Hm],
    (decide (name f = EmptyString)) as [Hn|Hn].
  - split; [done | by intros [[_ ?] _]].
  - split; [done | by intros [_ ?]].
  - split; [done | by intros [[? _] _]].
  - split; [done | by intros [[? _] _]].
Qed.

(** X9. [check_parsable] passes exactly when every file is opened in
    mode r and has a non-empty name.  Otherwise it raises for the first
    file that is not so: [FilePermissionsError] when the mode is wrong
    (whatever the name), [FileLocationError] when only the name is
    missing. *)
Theorem check_parsable_first_offender files :
  (Verifier.check_parsable files = inr tt ↔
   Forall (λ f, mode f = "r" ∧ name f ≠ EmptyString) files) ∧
  (∀ pre f rest,
     files = pre ++ f :: rest →
     Forall (λ f, mode f = "r" ∧ name f ≠ EmptyString) pre →
     ¬ (mode f = "r" ∧ name f ≠ EmptyString) →
     Verifier.check_parsable files =
     inl (if decide (mode f = "r") then FileLocationError else FilePermissionsError)).
Proof.
  split; [apply check_parsable_ok_iff|].
  intros pre f rest -> Hpre Hbad.
  induction Hpre as [|f0 pre [Hm Hn] _ IH].
  - rewrite app_nil_l, check_parsable_cons.
    destruct (decide (mode f = "r")); [|done].
    destruct (decide (name f = EmptyString)); [done|]. by destruct Hbad.
  - rewrite <- app_comm_cons, check_parsable_cons.
    by rewrite decide_True, decide_False.
Qed.

Lemma check_parsable_first_offender_witness :
  Verifier.check_parsable (example_files ++ [FileIO "" "w"; FileIO "" "r"])
  = inl FilePermissionsError.
Proof.
  destruct (check_parsable_first_offender
              (example_files ++ [FileIO "" "w"; FileIO "" "r"])) as [_ Hfirst].
  apply (Hfirst example_files (FileIO "" "w") [FileIO "" "r"]).
  - reflexivity.
  - repeat constructor; discriminate.
  - intros [Hmode _]. discriminate.
Defined.

(** X10. Files that pass [check_parsable] never make [process_files]
    raise [NoneFilePathError]: the empty-path test of [load_new_ast] cannot
    fire after the check. *)
Theorem parsable_files_have_paths e files st err :
  Verifier.check_parsable files = inr tt →
  parser_fresh st →
  (Core.process_files e files st).2 = inl err →
  err ≠ NoneFilePathError.
Proof.
  intros Hcheck Hfresh Herr ->. apply check_parsable_ok_iff in Hcheck.
  destruct files as [|f0 files]; [done|].
  destruct (first_failure e (f0 :: files)) as [[f err']|] eqn:Hfirst.
  - destruct (process_files_failure e _ f err' st Hfresh Hfirst) as (st' & Hrun & _).
    apply first_failure_Some in Hfirst as [Hin Hf].
    rewrite Hrun in Herr. injection Herr as ->.
    rewrite Forall_forall in Hcheck. destruct (Hcheck f Hin) as [_ Hname].
    apply truthy_ne in Hname. unfold file_failure in Hf. rewrite Hname in Hf.
    destruct (path_getsize e (name f)); [|done].
    destruct (parse_file e (name f)) as [ast|]; [|done].
    destruct (getsizeof e ast <? AstParser.MIN_BYTES); [done|].
    by destruct (func_defs ast).
  - apply first_failure_None in Hfirst.
    destruct (process_files_spec e (f0 :: files) st ltac:(done) Hfirst Hfresh)
      as (st' & Hrun & _).
    by rewrite Hrun in Herr.
Qed.

Lemma parsable_files_have_paths_witness :
  (Core.process_files example_env [FileIO "f1.c" "r"; FileIO "broken.c" "r"]
     initial_state).2 = inl TreeProducerError ∧
  TreeProducerError ≠ NoneFilePathError.
Proof.
  split; [reflexivity|].
  apply (parsable_files_have_paths example_env
           [FileIO "f1.c" "r"; FileIO "broken.c" "r"] initial_state).
  - reflexivity.
  - split; reflexivity.
  - reflexivity.
Defined.

Lemma check_dict_inner key tmp_list to_remove :
  foldl (λ to_remove pair,
    if decide (key = pair.2 ∧ key ∉ to_remove)
    then to_remove ++ [pair.2] else to_remove) to_remove tmp_list
  = if decide (key ∈ tmp_list.*2 ∧ key ∉ to_remove)
    then to_remove ++ [key] else to_remove.
Proof.
  revert to_remove. induction tmp_list as [|pair tmp_list IH]; intros to_remove.
  - cbn [foldl]. destruct (decide _) as [[Hin _]|_]; [|done].
    by apply elem_of_nil in Hin.
  - cbn [foldl]. rewrite IH, fmap_cons.
    destruct (decide (key = pair.2 ∧ key ∉ to_remove)) as [[-> Hnot]|Hno].
    + rewrite decide_False by (intros [_ Hn]; apply Hn, elem_of_app; right; by left).
      rewrite decide_True; [done|]. split; [by left|done].
    + destruct (decide (key ∈ to_remove)) as [Hin|Hnot].
      * by rewrite !decide_False by tauto.
      * assert (key ≠ pair.2) by tauto.
        destruct (decide (key ∈ tmp_list.*2)) as [Hk|Hk].
        -- rewrite !decide_True; [done|split; [by right|done]|done].
        -- rewrite !decide_False; [done| |tauto].
           intros [[?|?]%elem_of_cons _]; done.
Qed.

Lemma check_dict_outer tmp_list keys to_remove :
  NoDup to_remove →
  let r := foldl (λ to_remove key,
             foldl (λ to_remove pair,
               if decide (key = pair.2 ∧ key ∉ to_remove)
               then to_remove ++ [pair.2] else to_remove) to_remove tmp_list)
             to_remove keys in
  NoDup r ∧
  (∀ x, x ∈ r ↔ x ∈ to_remove ∨ (x ∈ keys ∧ x ∈ tmp_list.*2)) ∧
  (NoDup keys → (∀ k, k ∈ keys → k ∉ to_remove) →
   r = to_remove ++ filter (λ k, k ∈ tmp_list.*2) keys).
Proof.
  revert to_remove. induction keys as [|key keys IH]; intros to_remove Hnd.
  - simpl. split; [done|]. split.
    + intros x. split; [by left|]. intros [?|[?%elem_of_nil _]]; done.
    + intros _ _. by rewrite app_nil_r.
  - cbn [foldl]. cbv zeta. rewrite check_dict_inner.
    destruct (decide (key ∈ tmp_list.*2 ∧ key ∉ to_remove)) as [[Hk Hnot]|Hno].
    + destruct (IH (to_remove ++ [key])) as (Hnd' & Hmem & Heq).
      { apply NoDup_app. split; [done|]. split; [|apply NoDup_singleton].
        by intros x Hx ->%list_elem_of_singleton. }
      split; [done|]. split.
      * intros x. rewrite Hmem, elem_of_app, list_elem_of_singleton, elem_of_cons.
        split.
        -- intros [[?| ->]|[? ?]]; auto.
        -- intros [?|[[-> |?] ?]]; auto.
      * intros [Hkey Hkeys]%NoDup_cons Hfresh.
        rewrite Heq; [|done|].
        -- rewrite filter_cons_True by done. by rewrite <- app_assoc.
        -- intros k Hin [Hin'| ->%list_elem_of_singleton]%elem_of_app; [|done].
           apply (Hfresh k); [by right|done].
    + destruct (IH to_remove Hnd) as (Hnd' & Hmem & Heq).
      split; [done|]. split.
      * intros x. rewrite Hmem, elem_of_cons. split.
        -- intros [?|[? ?]]; auto.
        -- intros [?|[[-> |?] ?]]; [by left| |by right].
           left. destruct (decide (key ∈ to_remove)); [done|]. by destruct Hno.
      * intros [Hkey Hkeys]%NoDup_cons Hfresh.
        rewrite Heq; [|done|by intros k Hin; apply Hfresh; right].
        rewrite filter_cons_False; [done|].
        intros Hk. apply Hno. split; [done|]. apply Hfresh. by left.
Qed.

(** X11. [check_dict_by_list] returns the dictionary keys that occur as
    the string of some pair of the list: each such key once and no other
    value; and, the keys of a dictionary being distinct, in the order in
    which the dictionary yields them. *)
Theorem check_dict_by_list_common_keys tmp_list keys :
  let r := Verifier.check_dict_by_list tmp_list keys in
  NoDup r ∧
  (∀ x, x ∈ r ↔ x ∈ keys ∧ x ∈ tmp_list.*2) ∧
  (NoDup keys → r = filter (λ k, k ∈ tmp_list.*2) keys).
Proof.
  destruct (check_dict_outer tmp_list keys [] (NoDup_nil_2)) as (Hnd & Hmem & Heq).
  split; [done|]. split.
  - intros x. rewrite (Hmem x). split; [|by right].
    intros [?%elem_of_nil|?]; done.
  - intros Hkeys. apply Heq; [done|]. intros k _. apply not_elem_of_nil.
Qed.

Lemma check_dict_by_list_common_keys_witness :
  Verifier.check_dict_by_list example_candidates ["zzz"; "shared"; "only_f1"]
  = ["shared"; "only_f1"].
Proof.
  destruct (check_dict_by_list_common_keys example_candidates
              ["zzz"; "shared"; "only_f1"]) as (_ & _ & Heq).
  rewrite Heq; [vm_compute; reflexivity|].
  repeat constructor; vm_compute; intros Hin;
    repeat (apply elem_of_cons in Hin as [Hin|Hin]; [discriminate|]);
    by apply elem_of_nil in Hin.
Defined.

End VerifierFacts.

(* ================================================================== *)
(** * The bundle text: [Interface.convert_dict_to_json] *)
(* ================================================================== *)

Section BundleFacts.
Implicit Types (s k v rest : string) (c : ascii) (d : gmap string string).
Implicit Types (items : list (string * string)).

Local Arguments ascii_dec : simpl never.

Lemma append_assoc s1 s2 s3 : (s1 +:+ s2) +:+ s3 = s1 +:+ (s2 +:+ s3).
Proof. induction s1 as [|c s1 IH]; [done|]. by rewrite !append_cons, IH. Qed.

Lemma escape_char_printable c :
  printable c = true →
  PyJson.escape_char c = if Ascii.eqb PyStr.backslash c then bs2 else String c EmptyString.
Proof.
  destruct c as [[] [] [] [] [] [] [] []]; vm_compute; intros Hp;
    first [discriminate Hp | reflexivity].
Qed.

Lemma escape_cons_printable c s :
  printable c = true →
  PyJson.escape (String c s) = PyJson.escape_char c +:+ PyJson.escape s.
Proof.
  destruct c as [[] [] [] [] [] [] [] []]; intros Hp; vm_compute in Hp;
    first [discriminate Hp | reflexivity].
Qed.

(** Collapsing runs through text without backslashes unchanged. *)
Lemma collapse_plain s rest :
  PyStr.contains PyStr.backslash s = false →
  PyStr.replace_from bs2 bs1 0 (s +:+ rest) = s +:+ PyStr.replace_from bs2 bs1 0 rest.
Proof.
  induction s as [|c s IH]; [done|]. cbn [PyStr.contains].
  intros [Hc Hs]%orb_false_iff. rewrite !append_cons, collapse_cons, prefix_bs2.
  rewrite Ascii.eqb_sym, Hc. cbn [andb]. by rewrite IH.
Qed.

(** Collapsing undoes the escaping of a printable string, whatever
    follows it. *)
Lemma collapse_escape s rest :
  all_printable s = true →
  PyStr.replace_from bs2 bs1 0 (PyJson.escape s +:+ rest)
  = s +:+ PyStr.replace_from bs2 bs1 0 rest.
Proof.
  induction s as [|c s IH]; [done|]. cbn [all_printable].
  intros [Hc Hs]%andb_true_iff.
  rewrite (escape_cons_printable c s Hc), (escape_char_printable c Hc), append_assoc.
  destruct (Ascii.eqb_spec PyStr.backslash c) as [<-|Hne].
  - rewrite !append_cons, collapse_cons, prefix_bs2, Ascii.eqb_refl. cbn [andb].
    change (EmptyString +:+ ?x) with x. rewrite replace_from_skip, IH by done. done.
  - rewrite !append_cons, collapse_cons, prefix_bs2.
    destruct (Ascii.eqb_spec PyStr.backslash c) as [?|_]; [done|]. cbn [andb].
    change (EmptyString +:+ ?x) with x. by rewrite IH.
Qed.

Lemma collapse_encoded s rest :
  all_printable s = true →
  PyStr.replace_from bs2 bs1 0 (PyJson.encode_basestring_ascii s +:+ rest)
  = quoted s +:+ PyStr.replace_from bs2 bs1 0 rest.
Proof.
  intros Hs. unfold PyJson.encode_basestring_ascii, quoted.
  rewrite !append_cons, !append_assoc, collapse_cons, prefix_bs2. cbn [andb Ascii.eqb].
  replace (Ascii.eqb PyStr.backslash PyStr.dquote) with false by reflexivity.
  cbn [andb]. rewrite collapse_escape by done.
  by rewrite (collapse_plain dq) by reflexivity.
Qed.

Lemma collapse_member k v rest :
  all_printable k = true → all_printable v = true →
  PyStr.replace_from bs2 bs1 0
    (PyJson.encode_basestring_ascii k +:+ ": " +:+ PyJson.encode_basestring_ascii v +:+ rest)
  = quoted k +:+ ": " +:+ quoted v +:+ PyStr.replace_from bs2 bs1 0 rest.
Proof.
  intros Hk Hv. rewrite collapse_encoded by done.
  rewrite (collapse_plain ": ") by reflexivity. by rewrite collapse_encoded.
Qed.

Lemma collapse_members items rest :
  Forall (λ kv, all_printable kv.1 = true ∧ all_printable kv.2 = true) items →
  PyStr.replace_from bs2 bs1 0 (PyJson.members PyJson.encode_basestring_ascii items rest)
  = PyJson.members quoted items (PyStr.replace_from bs2 bs1 0 rest).
Proof.
  induction 1 as [|[k v] items [Hk Hv] _ IH]; [done|]. simpl in Hk, Hv.
  destruct items as [|kv items].
  - cbn [PyJson.members]. by apply collapse_member.
  - change (PyJson.members ?enc ((k, v) :: kv :: items) ?r)
      with (enc k +:+ ": " +:+ enc v +:+ String "," (String PyJson.newline "    ")
              +:+ PyJson.members enc (kv :: items) r).
    rewrite collapse_member by done.
    rewrite (collapse_plain (String "," (String PyJson.newline "    "))) by reflexivity.
    by rewrite IH.
Qed.

Lemma elem_of_sorted_items d k v : (k, v) ∈ PyJson.sorted_items d ↔ d !! k = Some v.
Proof.
  unfold PyJson.sorted_items. by rewrite sort_by_func_Permutation, elem_of_map_to_list.
Qed.

(** X12. Where every key and every function name of the mapping is made
    of printable ASCII characters other than the double quote, the
    backslash replacement exactly undoes the escaping of [json.dumps]:
    the bundle text is the indented object with every key and value
    written between double quotes as it is, backslashes included.  Its
    members are the entries of the mapping, in ascending order of key. *)
Theorem bundle_shows_entries_verbatim d :
  (∀ k v, d !! k = Some v → all_printable k = true ∧ all_printable v = true) →
  Interface.convert_dict_to_json d = PyJson.dumps_with quoted d ∧
  Sorted func_le (PyJson.sorted_items d) ∧
  (∀ k v, (k, v) ∈ PyJson.sorted_items d ↔ d !! k = Some v).
Proof.
  intros Hd. split; [|split; [apply sort_by_func_Sorted|apply elem_of_sorted_items]].
  unfold Interface.convert_dict_to_json, Interface.process_out_data, PyStr.replace,
    PyJson.dumps, PyJson.dumps_with.
  assert (Forall (λ kv, all_printable kv.1 = true ∧ all_printable kv.2 = true)
            (PyJson.sorted_items d)) as Hall.
  { apply Forall_forall. intros [k v] Hin. apply elem_of_sorted_items in Hin.
    by apply Hd. }
  destruct (PyJson.sorted_items d) as [|kv items]; [done|].
  rewrite (collapse_plain (String "{" (String PyJson.newline "    "))) by reflexivity.
  by rewrite collapse_members.
Qed.

Lemma bundle_shows_entries_verbatim_witness :
  Interface.convert_dict_to_json
    {[ "a" +:+ backslashes 1 +:+ "n" := "f1"; "x" +:+ backslashes 2 +:+ "y" := "f2" ]}
  = PyJson.dumps_with quoted
      {[ "a" +:+ backslashes 1 +:+ "n" := "f1"; "x" +:+ backslashes 2 +:+ "y" := "f2" ]}.
Proof.
  apply bundle_shows_entries_verbatim. intros k v Hkv.
  apply elem_of_map_to_list in Hkv. vm_compute in Hkv.
  apply elem_of_cons in Hkv as [[= -> ->]|Hkv]; [by split|].
  apply elem_of_cons in Hkv as [[= -> ->]|Hkv]; [by split|].
  by apply elem_of_nil in Hkv.
Defined.

(** X13. [generate_bundle] never raises and returns nothing: it leaves
    the text made from the Output Mapping in [json_data], replacing what
    was there, and changes neither the Output Mapping nor the Candidate
    List.  The text it leaves is never empty, whatever the mapping
    holds, so the test [if not self.json_data] of [convert_dict_to_json]
    never succeeds. *)
Theorem bundle_text_never_empty st :
  let st' := (Core.generate_bundle st).1 in
  (Core.generate_bundle st).2 = inr tt ∧
  (∃ text, json_data st' = Some text ∧
     text = Interface.convert_dict_to_json (str_func_dict st) ∧
     PyStr.truthy text = true) ∧
  str_func_dict st' = str_func_dict st ∧
  tpl_list st' = tpl_list st ∧
  lists st' = lists st ∧
  requested st' = requested st.
Proof.
  intros st'. split; [done|]. split; [|done].
  eexists. split; [reflexivity|]. split; [done|].
  unfold Interface.convert_dict_to_json, Interface.process_out_data, PyStr.replace,
    PyJson.dumps, PyJson.dumps_with.
  by destruct (PyJson.sorted_items (str_func_dict st)).
Qed.

End BundleFacts.

(* ================================================================== *)
(** * Adjudicating again after more Associations *)
(* ================================================================== *)

Section RepeatedAdjudication.
Implicit Types (st : state) (key fn other : string).

(** X14. Entries are never withdrawn.  When a literal got through one
    adjudication and is then appended once more, for whatever function,
    the next adjudication drops the literal from the Candidate List, as
    it is no longer unique, but its entry from the first adjudication
    stays in the Output Mapping. *)
Theorem stale_entry_survives st key fn other :
  (fn, key) ∈ survivors (tpl_list st) →
  let st1 := (Record.integrate_list_to_dict st).1 in
  let st2 := (Record.integrate_list_to_dict (append_all [(other, key)] st1).1).1 in
  str_func_dict st1 !! key = Some fn ∧
  str_func_dict st2 !! key = Some fn ∧
  key ∉ (tpl_list st2).*2.
Proof.
  intros Hin st1 st2.
  assert (str_func_dict st1 !! key = Some fn) as Hfirst.
  { by apply integrate_upsert. }
  assert ((1 < Record.count key
                 (Record.strings_of (tpl_list (append_all [(other, key)] st1).1)))%nat)
    as Hcount.
  { rewrite append_all_eq. unfold set_tpl_list, Record.strings_of.
    cbn [fst tpl_list]. rewrite fmap_app, count_app. cbn [fmap list_fmap snd].
    rewrite count_cons, decide_True by done.
    assert (0 < Record.count key (tpl_list st1).*2)%nat; [|lia].
    apply count_pos_elem_of, list_elem_of_fmap. exists (fn, key). split; [done|].
    subst st1. by rewrite integrate_tpl_list, sort_by_func_Permutation. }
  split; [done|]. split.
  - subst st2. rewrite integrate_lookup.
    rewrite (proj2 (reverse_dict_lookup_None _ key)) by lia.
    by rewrite append_all_eq.
  - subst st2. rewrite integrate_tpl_list, sort_by_func_Permutation.
    intros ([fn' key'] & Heq & Hsurv)%list_elem_of_fmap.
    cbn [snd] in Heq. subst key'.
    apply elem_of_survivors in Hsurv as [Hc _]. lia.
Qed.

Lemma stale_entry_survives_witness :
  let st1 := (Record.integrate_list_to_dict (store_state example_candidates ∅)).1 in
  let st2 := (Record.integrate_list_to_dict (append_all [("f2", "only_f1")] st1).1).1 in
  str_func_dict st2 !! "only_f1" = Some "f1" ∧ tpl_list st2 = [].
Proof.
  intros st1 st2.
  destruct (stale_entry_survives (store_state example_candidates ∅) "only_f1" "f1" "f2")
    as (_ & Hstale & _).
  - vm_compute. apply list_elem_of_here.
  - split; [exact Hstale|]. vm_compute. reflexivity.
Defined.

End RepeatedAdjudication.
